(** * Channel Feed (src/App.tsx): aggregation, merge and cache engine

    A shallow embedding of the data model and of the handlers of
    [src/src/App.tsx] that fetch, classify, filter, merge and cache feed
    items, followed by the properties proved about them.

    Conventions of the embedding:
    - JavaScript strings are [string]; a character stands for one code unit.
    - [undefined] and absent JSON fields are [None]; a string is truthy when
      it is present and not empty.
    - A JavaScript number that holds a timestamp or a count is a [Z];
      [NaN] (an invalid date) is [None].
    - [new Map] keeps insertion order, so it is an association list; the
      plain object [videoDurations] is only looked up, so it is a [gmap].
    - An [async] handler is a function of the effects made so far (requests
      sent, calls to the state setters) to what it returns or throws and the
      effects after it.  The upstream answers a request according to the
      number of requests sent before it.
    - The state setters of React queue updater functions; the state a
      handler leaves is the one obtained by applying them in order. *)

From Stdlib Require Import ZArith Ascii String.
From Equations Require Import Equations.
From stdpp Require Import gmap strings list sorting pretty.

Local Open Scope string_scope.
Local Open Scope Z_scope.
#[local] Set Warnings "-clear-no-such-hyp".

(** ** Data model (interfaces Channel, Video, CommunityPost, FetchSettings) *)

Inductive ContentType := longForm | shorts | community.

Global Instance ContentType_eq_dec : EqDecision ContentType.
Proof. solve_decision. Defined.

(** The string a [ContentType] is at run time. *)
Definition ContentType_name (t : ContentType) : string :=
  match t with
  | longForm => "longForm"
  | shorts => "shorts"
  | community => "community"
  end.

Record ContentTypes := {
  ct_longForm : bool;
  ct_shorts : bool;
  ct_community : bool
}.

Record Channel := {
  ch_id : string;
  ch_name : string;
  ch_thumbnail : string;
  ch_uploadsPlaylistId : option string;
  ch_contentTypes : ContentTypes
}.

Record Video := {
  v_id : string;
  v_title : string;
  v_thumbnail : string;
  v_channelName : string;
  v_channelId : string;
  v_publishedAt : string;
  v_viewCount : string;
  v_duration : string;
  v_type : ContentType
}.

Record CommunityPost := {
  p_id : string;
  p_content : string;
  p_thumbnail : string;
  p_channelName : string;
  p_channelId : string;
  p_publishedAt : string
}.

(** The union type [Video | CommunityPost] of the feed. *)
Inductive FeedItem :=
| VideoItem (v : Video)
| PostItem (p : CommunityPost).

Global Instance ContentTypes_eq_dec : EqDecision ContentTypes.
Proof. solve_decision. Defined.
Global Instance Channel_eq_dec : EqDecision Channel.
Proof. solve_decision. Defined.
Global Instance Video_eq_dec : EqDecision Video.
Proof. solve_decision. Defined.
Global Instance CommunityPost_eq_dec : EqDecision CommunityPost.
Proof. solve_decision. Defined.
Global Instance FeedItem_eq_dec : EqDecision FeedItem.
Proof. solve_decision. Defined.

Definition item_type (item : FeedItem) : ContentType :=
  match item with
  | VideoItem v => v_type v
  | PostItem _ => community
  end.

Definition item_channelId (item : FeedItem) : string :=
  match item with
  | VideoItem v => v_channelId v
  | PostItem p => p_channelId p
  end.

Definition item_id (item : FeedItem) : string :=
  match item with
  | VideoItem v => v_id v
  | PostItem p => p_id p
  end.

Definition item_publishedAt (item : FeedItem) : string :=
  match item with
  | VideoItem v => v_publishedAt v
  | PostItem p => p_publishedAt p
  end.

Record FetchSettings := {
  maxVideosPerChannel : Z;
  timeRangeDays : Z
}.

(** ** The key of an item *)

(** [buildVideoKey]: the template string [type-channelId-id]. *)
Definition buildVideoKey (item : FeedItem) : string :=
  ContentType_name (item_type item) +:+ "-" +:+ item_channelId item
    +:+ "-" +:+ item_id item.



(** ** JavaScript's [Map], keyed by strings

    Iteration follows insertion order, and [set] on a key that is present
    replaces the value and keeps the key's place. *)

Module JsMap.

Definition t (V : Type) := list (string * V).

Fixpoint set {V} (k : string) (v : V) (m : t V) : t V :=
  match m with
  | [] => [(k, v)]
  | (k', v') :: m' =>
      if decide (k' = k) then (k', v) :: m' else (k', v') :: set k v m'
  end.

Fixpoint get {V} (k : string) (m : t V) : option V :=
  match m with
  | [] => None
  | (k', v') :: m' => if decide (k' = k) then Some v' else get k m'
  end.

(** [set] run over a list of entries, the loop of the constructor
    [new Map(entries)] and of [for (e of entries) m.set(...)]. *)
Definition setAll {V} (entries : list (string * V)) (m : t V) : t V :=
  fold_left (fun acc e => set e.1 e.2 acc) entries m.

Definition fromEntries {V} (entries : list (string * V)) : t V :=
  setAll entries [].

Definition keys {V} (m : t V) : list string := m.*1.
Definition values {V} (m : t V) : list V := m.*2.

End JsMap.

(** ** [Array.prototype.sort] with a comparator

    The comparator returns a number; [NaN] counts as [+0].  The sort is
    stable, so for a consistent comparator the result is the one sorted
    rearrangement that keeps equal elements in their order; a stable insertion
    sort computes it. *)

Definition comparatorSign (v : option Z) : Z := default 0 v.

Fixpoint sortInsert {A} (cmp : A -> A -> option Z) (x : A) (l : list A) : list A :=
  match l with
  | [] => [x]
  | y :: l' =>
      if decide (comparatorSign (cmp x y) <= 0) then x :: y :: l'
      else y :: sortInsert cmp x l'
  end.

Definition Array_sort {A} (cmp : A -> A -> option Z) (l : list A) : list A :=
  foldr (sortInsert cmp) [] l.

(** ** Truthiness and the string helpers used by the handlers *)

(** The value of an optional string when it is truthy (present, non-empty). *)
Definition truthy (o : option string) : option string :=
  match o with
  | Some s => if decide (s = "") then None else Some s
  | None => None
  end.

(** [a || b] on strings, [a] possibly undefined. *)
Definition orElse (a : option string) (b : string) : string :=
  default b (truthy a).

Definition isDigit (c : ascii) : bool :=
  let n := N_of_ascii c in ((48 <=? n) && (n <=? 57))%N.

Definition digitValue (c : ascii) : Z := Z.of_N (N_of_ascii c) - 48.

(** The longest prefix of digits, and what follows it. *)
Fixpoint spanDigits (s : string) : string * string :=
  match s with
  | String c s' =>
      if isDigit c then let '(d, r) := spanDigits s' in (String c d, r)
      else ("", s)
  | EmptyString => ("", "")
  end.

Fixpoint digitsValue (acc : Z) (s : string) : Z :=
  match s with
  | String c s' => digitsValue (acc * 10 + digitValue c) s'
  | EmptyString => acc
  end.

(** [parseInt] on the strings it receives here, which hold decimal digits:
    the value of the leading digits, [NaN] when there is none. *)
Definition parseInt (s : string) : option Z :=
  match spanDigits s with
  | (String c d, _) => Some (digitsValue 0 (String c d))
  | _ => None
  end.

(** ** The duration pattern [/PT(?:(\d+)M)?(?:(\d+)S)?/]

    Both groups are optional and nothing follows them, so the pattern matches
    at the first place the text [PT] occurs, and each group captures greedily
    when a run of digits is followed by its unit letter. *)

(** [(?:(\d+)u)?] at the head of [s]: the capture and the rest of the text. *)
Definition matchNumberUnit (u : ascii) (s : string) : option string * string :=
  match spanDigits s with
  | (String c d, String c' rest) =>
      if decide (c' = u) then (Some (String c d), rest) else (None, s)
  | _ => (None, s)
  end.

(** The two captures once [PT] has been read. *)
Definition matchAfterPT (s : string) : option string * option string :=
  let '(minutes, rest) := matchNumberUnit "M" s in
  let '(seconds, _) := matchNumberUnit "S" rest in
  (minutes, seconds).

(** [durationStr.match(...)]: [None] is [null], otherwise captures 1 and 2. *)
Fixpoint durationMatch (s : string) : option (option string * option string) :=
  match s with
  | EmptyString => None
  | String c s' =>
      match c, s' with
      | "P"%char, String "T"%char rest => Some (matchAfterPT rest)
      | _, _ => durationMatch s'
      end
  end.

(** [minutes * 60 + seconds] of lines 264-267. *)
Definition totalSeconds (durationStr : string) : option Z :=
  let match_ := durationMatch durationStr in
  minutes ← parseInt (orElse (match_ ≫= fst) "0");
  seconds ← parseInt (orElse (match_ ≫= snd) "0");
  Some (minutes * 60 + seconds).

(** [n <= 60] on a number that may be [NaN]. *)
Definition atMost60 (n : option Z) : bool :=
  match n with
  | Some t => bool_decide (t <= 60)
  | None => false
  end.

(** Lines 256-274 of [fetchChannelVideos]: the duration label and the type of
    a playlist entry, from its video id and the durations fetched so far. *)
Definition classify (videoId : option string) (videoDurations : gmap string string)
    : string * ContentType :=
  match truthy videoId with
  | Some vid =>
      match truthy (videoDurations !! vid) with
      | Some durationStr =>
          if atMost60 (totalSeconds durationStr) then ("Short", shorts)
          else ("Video", longForm)
      | None => ("Video", longForm)
      end
  | None => ("Video", longForm)
  end.

(** ** Upstream records (the fields of the JSON replies the handlers read) *)

(** An entry of [playlistItems]: [snippet.title], [snippet.publishedAt],
    [snippet.resourceId?.videoId], [snippet.thumbnails?.medium?.url]. *)
Record PlaylistItem := {
  pl_title : string;
  pl_publishedAt : string;
  pl_videoId : option string;
  pl_thumbnailMedium : option string
}.

(** An entry of [videos]: [id] and [contentDetails.duration]. *)
Record VideoDetails := {
  vd_id : string;
  vd_duration : string
}.

(** An entry of [activities]: [id], [snippet.type], [snippet.description],
    [snippet.publishedAt], [snippet.thumbnails?.medium?.url]. *)
Record Activity := {
  act_id : string;
  act_type : string;
  act_description : option string;
  act_publishedAt : string;
  act_thumbnailMedium : option string
}.

(** An entry of the channel search: [id.channelId], [snippet.title] and the
    three thumbnail sizes [getSnippetThumbnail] looks at. *)
Record SearchResult := {
  sr_channelId : string;
  sr_title : string;
  sr_thumbnailHigh : option string;
  sr_thumbnailMedium : option string;
  sr_thumbnailDefault : option string
}.

(** The requests a handler sends (every URL also carries the API key). *)
Inductive Request :=
| GetChannels (channelId : string)
| GetPlaylistItems (playlistId : string) (maxResults : Z)
| GetVideos (ids : list string)
| GetActivities (channelId : string) (maxResults : Z).

Inductive JsError := NetworkError | SyntaxError | TypeError.

(** The result of an awaited call: a value, or a thrown error. *)
Inductive outcome (A : Type) :=
| Returned (a : A)
| Thrown (e : JsError).
Arguments Returned {A} a.
Arguments Thrown {A} e.

(** What the environment answers during one run of a handler.  The answer to
    a request may depend on how many requests were sent before it, so a
    request repeated later can be answered differently.  A reply is the JSON
    body read with [await response.json()]: [Thrown] when [fetch] or [json]
    rejects; the payload is the field the handler reads ([None] when the body
    has no such field, as the body of an error status has none). *)
Record Upstream := {
  clock : nat -> Z;
  channelsReply : nat -> string -> outcome (option string);
  playlistItemsReply : nat -> string -> Z -> outcome (option (list PlaylistItem));
  videosReply : nat -> list string -> outcome (option (list VideoDetails));
  activitiesReply : nat -> string -> Z -> outcome (option (list Activity))
}.

(** ** Effects of a handler

    The requests sent so far, and the calls made to the state setters, oldest
    first. *)
Record Effects := {
  requests : list Request;
  channelsUpdates : list (list Channel -> list Channel);
  videosUpdates : list (list FeedItem -> list FeedItem);
  apiKeyRequested : bool
}.

Definition noEffects : Effects :=
  {| requests := []; channelsUpdates := []; videosUpdates := [];
     apiKeyRequested := false |}.

Definition IO (A : Type) : Type := Effects -> outcome A * Effects.

Definition ret {A} (a : A) : IO A := fun fx => (Returned a, fx).

Definition bind {A B} (m : IO A) (k : A -> IO B) : IO B :=
  fun fx =>
    match m fx with
    | (Returned a, fx') => k a fx'
    | (Thrown e, fx') => (Thrown e, fx')
    end.

(** [try { m } catch (error) { h error }]. *)
Definition tryCatch {A} (m : IO A) (h : JsError -> IO A) : IO A :=
  fun fx =>
    match m fx with
    | (Returned a, fx') => (Returned a, fx')
    | (Thrown e, fx') => h e fx'
    end.

Declare Scope io_scope.
Delimit Scope io_scope with io.
Notation "x <- m ;; k" := (bind m (fun x => k))
  (at level 100, m at next level, k at level 200, right associativity) : io_scope.
Notation "m ;; k" := (bind m (fun _ => k))
  (at level 100, k at level 200, right associativity) : io_scope.
Local Open Scope io_scope.

(** React applies the queued updaters in order. *)
Definition applyUpdates {S} (updates : list (S -> S)) (s : S) : S :=
  foldl (fun acc f => f acc) s updates.

(** ** The runtime's clock and calendar

    [Date_getTime s] is [new Date(s).getTime()], [None] for an invalid date.
    [Date_minusDays t n] is the instant [d.setDate(d.getDate() - n)] leaves in
    a date [d] that held [t]: [n] days earlier on the local calendar. *)

Class JsDate := {
  Date_getTime : string -> option Z;
  Date_minusDays : Z -> Z -> Z
}.

Section Feed.
Context `{JsDate}.

(** The comparator of both sorts:
    [(a, b) => new Date(b.publishedAt).getTime() - new Date(a.publishedAt).getTime()]. *)
Definition compareByPublishedDesc (a b : FeedItem) : option Z :=
  tb ← Date_getTime (item_publishedAt b);
  ta ← Date_getTime (item_publishedAt a);
  Some (tb - ta).

(** The working map of the merge in [addChannel]. *)
Definition mergeMap (prev newVideos : list FeedItem) : JsMap.t FeedItem :=
  let nextMap := JsMap.fromEntries ((fun item => (buildVideoKey item, item)) <$> prev) in
  JsMap.setAll ((fun item => (buildVideoKey item, item)) <$> newVideos) nextMap.

(** The updater [addChannel] passes to [setVideos]. *)
Definition mergeVideos (prev newVideos : list FeedItem) : list FeedItem :=
  Array_sort compareByPublishedDesc (JsMap.values (mergeMap prev newVideos)).

(** [a] is published no earlier than [b], both dates being valid. *)
Definition notOlder (a b : FeedItem) : Prop :=
  match Date_getTime (item_publishedAt a), Date_getTime (item_publishedAt b) with
  | Some ta, Some tb => tb <= ta
  | _, _ => False
  end.

Definition validDate (item : FeedItem) : Prop :=
  is_Some (Date_getTime (item_publishedAt item)).

#[global] Instance notOlder_dec (a b : FeedItem) : Decision (notOlder a b).
Proof.
  unfold notOlder.
  destruct (Date_getTime (item_publishedAt a)), (Date_getTime (item_publishedAt b));
    apply _.
Defined.

#[global] Instance validDate_dec (item : FeedItem) : Decision (validDate item).
Proof. unfold validDate. apply _. Defined.

Section Handlers.
Variable up : Upstream.

Definition send (r : Request) (fx : Effects) : Effects :=
  {| requests := requests fx ++ [r];
     channelsUpdates := channelsUpdates fx;
     videosUpdates := videosUpdates fx;
     apiKeyRequested := apiKeyRequested fx |}.

(** [new Date()] / [Date.now()]. *)
Definition newDate : IO Z :=
  fun fx => (Returned (clock up (length (requests fx))), fx).

Definition getChannels (channelId : string) : IO (option string) :=
  fun fx => (channelsReply up (length (requests fx)) channelId,
             send (GetChannels channelId) fx).

Definition getPlaylistItems (playlistId : string) (maxResults : Z)
    : IO (option (list PlaylistItem)) :=
  fun fx => (playlistItemsReply up (length (requests fx)) playlistId maxResults,
             send (GetPlaylistItems playlistId maxResults) fx).

Definition getVideos (ids : list string) : IO (option (list VideoDetails)) :=
  fun fx => (videosReply up (length (requests fx)) ids, send (GetVideos ids) fx).

Definition getActivities (channelId : string) (maxResults : Z)
    : IO (option (list Activity)) :=
  fun fx => (activitiesReply up (length (requests fx)) channelId maxResults,
             send (GetActivities channelId maxResults) fx).

Definition setChannels (f : list Channel -> list Channel) : IO unit :=
  fun fx => (Returned tt,
    {| requests := requests fx;
       channelsUpdates := channelsUpdates fx ++ [f];
       videosUpdates := videosUpdates fx;
       apiKeyRequested := apiKeyRequested fx |}).

Definition setVideos (f : list FeedItem -> list FeedItem) : IO unit :=
  fun fx => (Returned tt,
    {| requests := requests fx;
       channelsUpdates := channelsUpdates fx;
       videosUpdates := videosUpdates fx ++ [f];
       apiKeyRequested := apiKeyRequested fx |}).

Definition requestApiKey : IO unit :=
  fun fx => (Returned tt,
    {| requests := requests fx;
       channelsUpdates := channelsUpdates fx;
       videosUpdates := videosUpdates fx;
       apiKeyRequested := true |}).

(** ** Time-window filter (lines 195-196, 252-254 and 305) *)

(** [a < b] and [a >= b] on numbers, [a] possibly [NaN]. *)
Definition numLt (a : option Z) (b : Z) : bool :=
  match a with Some x => bool_decide (x < b) | None => false end.

Definition numGe (a : option Z) (b : Z) : bool :=
  match a with Some x => bool_decide (b <= x) | None => false end.

Definition cutoffDate (fetchSettings : FetchSettings) (today : Z) : Z :=
  Date_minusDays today (timeRangeDays fetchSettings).

(** A playlist entry is skipped when
    [timeRangeDays !== 0 && publishedAt < cutoffDate]. *)
Definition videoInRange (fetchSettings : FetchSettings) (cutoff : Z)
    (publishedAt : string) : bool :=
  negb (bool_decide (timeRangeDays fetchSettings <> 0)
        && numLt (Date_getTime publishedAt) cutoff).

(** A community post is kept when
    [timeRangeDays === 0 || itemDate >= cutoffDate]. *)
Definition postInRange (fetchSettings : FetchSettings) (cutoff : Z)
    (publishedAt : string) : bool :=
  bool_decide (timeRangeDays fetchSettings = 0)
  || numGe (Date_getTime publishedAt) cutoff.

(** ** Batched duration lookup (lines 230-245) *)

(** [videoIds.slice(i, j)]. *)
Definition slice {A} (i j : nat) (l : list A) : list A := take (j - i) (drop i l).

Definition batchSize : nat := 50.

(** The inner loop: [videoDurations[video.id] = video.contentDetails.duration]
    for every entry, when the body has [items]. *)
Definition storeDurations (items : option (list VideoDetails))
    (videoDurations : gmap string string) : gmap string string :=
  match items with
  | Some l => foldl (fun acc video => <[vd_id video := vd_duration video]> acc) videoDurations l
  | None => videoDurations
  end.

(** [for (let i = ...; i < videoIds.length; i += batchSize)], entered at [i]. *)
Equations? fetchDurationsFrom (videoIds : list string) (i : nat)
    (videoDurations : gmap string string) (fx : Effects)
    : outcome (gmap string string) * Effects
    by wf (length videoIds - i)%nat lt :=
fetchDurationsFrom videoIds i videoDurations fx with decide (i < length videoIds)%nat := {
  | left _ with getVideos (slice i (i + batchSize) videoIds) fx := {
      | (Returned videoData, fx') =>
          fetchDurationsFrom videoIds (i + batchSize)
            (storeDurations videoData videoDurations) fx';
      | (Thrown e, fx') => (Thrown e, fx') };
  | right _ => (Returned videoDurations, fx) }.
Proof. unfold batchSize. lia. Qed.

Definition fetchDurations (videoIds : list string) : IO (gmap string string) :=
  if decide (0 < length videoIds)%nat then fetchDurationsFrom videoIds 0 ∅
  else ret ∅.

(** ** One channel: [fetchChannelVideos] *)

(** The body of the loop over [playlistData.items] (lines 247-291): the feed
    item an entry yields, if any. *)
Definition playlistVideo (channel : Channel) (fetchSettings : FetchSettings)
    (cutoff : Z) (videoDurations : gmap string string) (item : PlaylistItem)
    : option FeedItem :=
  if videoInRange fetchSettings cutoff (pl_publishedAt item) then
    let videoId := pl_videoId item in
    let '(duration, type) := classify videoId videoDurations in
    if (bool_decide (type = longForm) && ct_longForm (ch_contentTypes channel))
       || (bool_decide (type = shorts) && ct_shorts (ch_contentTypes channel))
    then Some (VideoItem
      {| v_id := orElse videoId "";
         v_title := pl_title item;
         v_thumbnail := orElse (pl_thumbnailMedium item) "";
         v_channelName := ch_name channel;
         v_channelId := ch_id channel;
         v_publishedAt := pl_publishedAt item;
         v_viewCount := "";
         v_duration := duration;
         v_type := type |})
    else None
  else None.

(** The id of a community post (line 307):
    [item.snippet.description?.substring(0, 50) || item.id]. *)
Definition communityPostId (item : Activity) : string :=
  orElse (substring 0 50 <$> act_description item) (act_id item).

(** The body of the loop over [communityData.items] (lines 301-317). *)
Definition communityPost (channel : Channel) (fetchSettings : FetchSettings)
    (cutoff : Z) (item : Activity) : option FeedItem :=
  if decide (act_type item = "community") then
    if postInRange fetchSettings cutoff (act_publishedAt item) then
      Some (PostItem
        {| p_id := communityPostId item;
           p_content := orElse (act_description item) "Community post";
           p_thumbnail := orElse (act_thumbnailMedium item) "";
           p_channelName := ch_name channel;
           p_channelId := ch_id channel;
           p_publishedAt := act_publishedAt item |})
    else None
  else None.

(** The updater of lines 210-212:
    [prev.map(c => c.id === channel.id ? { ...c, uploadsPlaylistId } : c)]. *)
Definition cacheUploads (channelId uploadsPlaylistId : string)
    (prev : list Channel) : list Channel :=
  (fun c => if decide (ch_id c = channelId)
            then {| ch_id := ch_id c; ch_name := ch_name c;
                    ch_thumbnail := ch_thumbnail c;
                    ch_uploadsPlaylistId := Some uploadsPlaylistId;
                    ch_contentTypes := ch_contentTypes c |}
            else c) <$> prev.

(** Lines 198-214: the cached playlist id, or one lookup that is cached in the
    registry when it yields an id. *)
Definition resolveUploadsPlaylistId (channel : Channel) : IO (option string) :=
  match truthy (ch_uploadsPlaylistId channel) with
  | Some uploadsPlaylistId => ret (Some uploadsPlaylistId)
  | None =>
      uploads <- getChannels (ch_id channel);;
      match truthy uploads with
      | Some uploadsPlaylistId =>
          setChannels (cacheUploads (ch_id channel) uploadsPlaylistId);;
          ret (Some uploadsPlaylistId)
      | None => ret None
      end
  end.

(** Lines 216-293: the videos of the uploads playlist. *)
Definition fetchPlaylistVideos (channel : Channel) (fetchSettings : FetchSettings)
    (cutoff : Z) (uploadsPlaylistId : option string) : IO (list FeedItem) :=
  match uploadsPlaylistId with
  | Some playlistId =>
      if ct_longForm (ch_contentTypes channel) || ct_shorts (ch_contentTypes channel)
      then
        items <- getPlaylistItems playlistId (maxVideosPerChannel fetchSettings * 2);;
        match items with
        | Some (item :: more) =>
            let videoIds := omap (fun it => truthy (pl_videoId it)) (item :: more) in
            videoDurations <- fetchDurations videoIds;;
            ret (omap (playlistVideo channel fetchSettings cutoff videoDurations)
                      (item :: more))
        | _ => ret []
        end
      else ret []
  | None => ret []
  end.

(** Lines 295-319: the community posts of the activity feed. *)
Definition fetchCommunityPosts (channel : Channel) (fetchSettings : FetchSettings)
    (cutoff : Z) : IO (list FeedItem) :=
  if ct_community (ch_contentTypes channel) then
    items <- getActivities (ch_id channel) (maxVideosPerChannel fetchSettings);;
    match items with
    | Some entries => ret (omap (communityPost channel fetchSettings cutoff) entries)
    | None => ret []
    end
  else ret [].

Definition fetchChannelVideos (apiKey : string) (fetchSettings : FetchSettings)
    (channel : Channel) : IO (list FeedItem) :=
  if decide (apiKey = "") then requestApiKey;; ret []
  else
    today <- newDate;;
    let cutoff := cutoffDate fetchSettings today in
    uploadsPlaylistId <- resolveUploadsPlaylistId channel;;
    playlistVideos <- fetchPlaylistVideos channel fetchSettings cutoff uploadsPlaylistId;;
    posts <- fetchCommunityPosts channel fetchSettings cutoff;;
    ret (playlistVideos ++ posts)%list.

(** ** Full refresh: [fetchVideos] *)

(** The loop over [channels] (lines 437-444), each channel inside its own
    [try]/[catch]. *)
Fixpoint fetchEachChannel (apiKey : string) (fetchSettings : FetchSettings)
    (channels : list Channel) (allVideos : list FeedItem) : IO (list FeedItem) :=
  match channels with
  | [] => ret allVideos
  | channel :: rest =>
      allVideos' <-
        tryCatch (channelItems <- fetchChannelVideos apiKey fetchSettings channel;;
                  ret (allVideos ++ channelItems)%list)
                 (fun _ => ret allVideos);;
      fetchEachChannel apiKey fetchSettings rest allVideos'
  end.

Definition fetchVideos (apiKey : string) (fetchSettings : FetchSettings)
    (channels : list Channel) : IO unit :=
  if decide (length channels = 0)%nat then ret tt
  else if decide (apiKey = "") then requestApiKey
  else
    allVideos <- fetchEachChannel apiKey fetchSettings channels [];;
    setVideos (fun _ => Array_sort compareByPublishedDesc allVideos).

(** ** Adding a channel: [addChannel] *)

Definition getSnippetThumbnail (channel : SearchResult) : string :=
  orElse (sr_thumbnailHigh channel)
    (orElse (sr_thumbnailMedium channel) (orElse (sr_thumbnailDefault channel) "")).

(** Lines 365-375. *)
Definition newChannelOf (channel : SearchResult) (uploadsPlaylistId : string) : Channel :=
  {| ch_id := sr_channelId channel;
     ch_name := sr_title channel;
     ch_thumbnail := getSnippetThumbnail channel;
     ch_uploadsPlaylistId := Some uploadsPlaylistId;
     ch_contentTypes := {| ct_longForm := true; ct_shorts := true; ct_community := false |} |}.

(** [channels.find(c => c.id === newChannel.id)]. *)
Definition findChannel (channels : list Channel) (channelId : string) : option Channel :=
  snd <$> list_find (fun c => ch_id c = channelId) channels.

(** [channels] is the registry the handler was created with; the updaters act
    on the registry and the feed current when React applies them. *)
Definition addChannel (apiKey : string) (fetchSettings : FetchSettings)
    (channels : list Channel) (channel : SearchResult) : IO unit :=
  uploadsPlaylistId <-
    tryCatch (uploads <- getChannels (sr_channelId channel);;
              ret (orElse uploads ""))
             (fun _ => ret "");;
  let newChannel := newChannelOf channel uploadsPlaylistId in
  match findChannel channels (ch_id newChannel) with
  | None =>
      setChannels (fun prev => (prev ++ [newChannel])%list);;
      tryCatch (newVideos <- fetchChannelVideos apiKey fetchSettings newChannel;;
                if decide (0 < length newVideos)%nat
                then setVideos (fun prev => mergeVideos prev newVideos)
                else ret tt)
               (fun _ => ret tt)
  | Some _ => ret tt
  end.

(** ** The state the handlers act on, and a handler run to its end *)

Record AppState := {
  st_channels : list Channel;
  st_videos : list FeedItem
}.

Definition commit (fx : Effects) (st : AppState) : AppState :=
  {| st_channels := applyUpdates (channelsUpdates fx) (st_channels st);
     st_videos := applyUpdates (videosUpdates fx) (st_videos st) |}.

(** A handler run from a state with nothing sent before: what it returns to
    its caller, the state left once its updaters are applied, and the
    requests it sent. *)
Definition runHandler (h : IO unit) (st : AppState)
    : outcome unit * AppState * list Request :=
  let '(r, fx) := h noEffects in (r, commit fx st, requests fx).

Definition refresh (apiKey : string) (fetchSettings : FetchSettings) (st : AppState)
    : outcome unit * AppState * list Request :=
  runHandler (fetchVideos apiKey fetchSettings (st_channels st)) st.

Definition add (apiKey : string) (fetchSettings : FetchSettings)
    (channel : SearchResult) (st : AppState)
    : outcome unit * AppState * list Request :=
  runHandler (addChannel apiKey fetchSettings (st_channels st) channel) st.

(** ** Reference descriptions of the two loops

    The batches a list of ids is cut into, and the requests that go out for
    them one after the other; the outcome of every channel of a refresh.  The
    loops of the handlers are shown to compute these. *)

(** The ceiling of [n / d]. *)
Definition ceilDiv (n d : nat) : nat := ((n + d - 1) / d)%nat.

Definition batchAt (videoIds : list string) (k : nat) : list string :=
  slice (k * batchSize) (k * batchSize + batchSize) videoIds.

Definition batches (videoIds : list string) : list (list string) :=
  batchAt videoIds <$> seq 0 (ceilDiv (length videoIds) batchSize).

(** One request for each batch in turn, up to the first one that throws. *)
Fixpoint fetchBatches (bs : list (list string)) (videoDurations : gmap string string)
    : IO (gmap string string) :=
  match bs with
  | [] => ret videoDurations
  | batch :: rest =>
      videoData <- getVideos batch;;
      fetchBatches rest (storeDurations videoData videoDurations)
  end.

Definition sendAll (rs : list Request) (fx : Effects) : Effects :=
  foldl (fun acc r => send r acc) fx rs.

(** What a channel adds to the feed of a refresh. *)
Definition contribution (r : outcome (list FeedItem)) : list FeedItem :=
  match r with
  | Returned items => items
  | Thrown _ => []
  end.

(** The outcome of [fetchChannelVideos] for each channel, run one after the
    other, and the effects left at the end. *)
Fixpoint channelOutcomes (apiKey : string) (fetchSettings : FetchSettings)
    (channels : list Channel) (fx : Effects)
    : list (outcome (list FeedItem)) * Effects :=
  match channels with
  | [] => ([], fx)
  | channel :: rest =>
      let '(r, fx') := fetchChannelVideos apiKey fetchSettings channel fx in
      let '(rs, fx'') := channelOutcomes apiKey fetchSettings rest fx' in
      (r :: rs, fx'')
  end.

End Handlers.

(** ** Feed cache (lines 76-87 and 146-153) *)

(** The value kept under [cachedVideos] in [localStorage]. *)
Record CachedVideos := {
  cached_videos : list FeedItem;
  cached_timestamp : Z
}.

(** The initializer of the [videos] state: the cached feed when its timestamp
    is later than one day before [today]. *)
Definition loadCachedVideos (today : Z) (saved : option CachedVideos) : list FeedItem :=
  match saved with
  | Some data =>
      let oneDayAgo := today - 24 * 60 * 60 * 1000 in
      if decide (cached_timestamp data > oneDayAgo) then cached_videos data else []
  | None => []
  end.

(** The effect run when [videos] changes: what [cachedVideos] holds after. *)
Definition cacheVideos (today : Z) (videos : list FeedItem)
    (saved : option CachedVideos) : option CachedVideos :=
  if decide (0 < length videos)%nat
  then Some {| cached_videos := videos; cached_timestamp := today |}
  else saved.

End Feed.

(** ** A runtime instance: UTC dates in the upstream's timestamp format

    [utcDate] reads timestamps written [YYYY-MM-DDTHH:MM:SSZ], the format of
    the upstream's [publishedAt], as milliseconds since the epoch, and counts
    days of 24 hours (a zone without daylight saving). *)

Definition twoDigits (a b : ascii) : option Z :=
  if isDigit a && isDigit b then Some (digitValue a * 10 + digitValue b) else None.

(** Days from 1970-01-01 to the civil date [y]-[m]-[d]. *)
Definition daysFromCivil (y m d : Z) : Z :=
  let y' := if decide (m <= 2) then y - 1 else y in
  let era := y' / 400 in
  let yoe := y' - era * 400 in
  let mp := if decide (m <= 2) then m + 9 else m - 3 in
  let doy := (153 * mp + 2) / 5 + d - 1 in
  let doe := yoe * 365 + yoe / 4 - yoe / 100 + doy in
  era * 146097 + doe - 719468.

Definition utcGetTime (s : string) : option Z :=
  match list_ascii_of_string s with
  | [y1; y2; y3; y4; "-"; m1; m2; "-"; d1; d2; "T"; h1; h2; ":"; n1; n2; ":"; s1; s2; "Z"]%char =>
      yh ← twoDigits y1 y2;
      yl ← twoDigits y3 y4;
      mo ← twoDigits m1 m2;
      dd ← twoDigits d1 d2;
      hh ← twoDigits h1 h2;
      mi ← twoDigits n1 n2;
      ss ← twoDigits s1 s2;
      if bool_decide (1 <= mo <= 12 /\ 1 <= dd <= 31 /\ hh <= 23 /\ mi <= 59 /\ ss <= 59)
      then Some ((((daysFromCivil (yh * 100 + yl) mo dd * 24 + hh) * 60 + mi) * 60 + ss) * 1000)
      else None
  | _ => None
  end.

Definition msPerDay : Z := 24 * 60 * 60 * 1000.

#[local] Instance utcDate : JsDate :=
  {| Date_getTime := utcGetTime;
     Date_minusDays := fun t n => t - n * msPerDay |}.


(** ** Duration codes

    The upstream writes durations as ISO 8601 codes: [PT45S], [PT5M],
    [PT10M1S], and from one hour on [PT1H], [PT1H2M3S]. *)

Fixpoint allDigits (s : string) : bool :=
  match s with
  | EmptyString => true
  | String c s' => isDigit c && allDigits s'
  end.

(** A non-empty run of decimal digits. *)
Definition isNumber (s : string) : Prop := s <> "" /\ allDigits s = true.

Definition minutesSecondsCode (m sec : string) : string :=
  "PT" +:+ m +:+ "M" +:+ sec +:+ "S".

Definition minutesCode (m : string) : string := "PT" +:+ m +:+ "M".

Definition secondsCode (sec : string) : string := "PT" +:+ sec +:+ "S".

(** A code of one hour or more: the hours, then whatever minutes and seconds
    follow. *)
Definition hoursCode (h rest : string) : string := "PT" +:+ h +:+ "H" +:+ rest.

(** ** Sample data: three channels and what the upstream answers for them *)

Definition sampleSettings : FetchSettings :=
  {| maxVideosPerChannel := 10; timeRangeDays := 30 |}.

Definition defaultContentTypes : ContentTypes :=
  {| ct_longForm := true; ct_shorts := true; ct_community := false |}.

Definition channelA : Channel :=
  {| ch_id := "UCalpha"; ch_name := "Alpha"; ch_thumbnail := "alpha.jpg";
     ch_uploadsPlaylistId := Some "UUalpha"; ch_contentTypes := defaultContentTypes |}.

Definition channelB : Channel :=
  {| ch_id := "UCbeta"; ch_name := "Beta"; ch_thumbnail := "beta.jpg";
     ch_uploadsPlaylistId := Some "UUbeta"; ch_contentTypes := defaultContentTypes |}.

(** A channel followed for its community posts only. *)
Definition channelC : Channel :=
  {| ch_id := "UCgamma"; ch_name := "Gamma"; ch_thumbnail := "gamma.jpg";
     ch_uploadsPlaylistId := Some "UUgamma";
     ch_contentTypes := {| ct_longForm := false; ct_shorts := false; ct_community := true |} |}.

Definition entryB1 : PlaylistItem :=
  {| pl_title := "Opening"; pl_publishedAt := "2024-03-01T10:00:00Z";
     pl_videoId := Some "b1"; pl_thumbnailMedium := Some "b1.jpg" |}.

Definition entryB2 : PlaylistItem :=
  {| pl_title := "Interview"; pl_publishedAt := "2024-03-05T10:00:00Z";
     pl_videoId := Some "b2"; pl_thumbnailMedium := Some "b2.jpg" |}.

Definition entryB3 : PlaylistItem :=
  {| pl_title := "Recap"; pl_publishedAt := "2024-03-03T10:00:00Z";
     pl_videoId := Some "b3"; pl_thumbnailMedium := None |}.

(** Two posts of channel C that open with the same words. *)
Definition postC1 : Activity :=
  {| act_id := "act-1"; act_type := "community";
     act_description := Some "Live tonight!";
     act_publishedAt := "2024-03-08T18:00:00Z"; act_thumbnailMedium := None |}.

Definition postC2 : Activity :=
  {| act_id := "act-2"; act_type := "community";
     act_description := Some "Live tonight!";
     act_publishedAt := "2024-03-09T18:00:00Z"; act_thumbnailMedium := None |}.

(** A post whose text has 61 characters. *)
Definition longPost : Activity :=
  {| act_id := "act-9"; act_type := "community";
     act_description :=
       Some "0123456789012345678901234567890123456789012345678901234567890";
     act_publishedAt := "2024-03-08T18:00:00Z"; act_thumbnailMedium := None |}.

(** 2024-03-10T00:00:00Z. *)
Definition sampleToday : Z := 1710028800000.

(** The playlist of channel A cannot be fetched; that of channel B holds three
    videos of 45 seconds, 5 minutes and 10 minutes 1 second. *)
Definition sampleUpstream : Upstream :=
  {| clock := fun _ => sampleToday;
     channelsReply := fun _ channelId => Returned (Some ("UU" +:+ channelId));
     playlistItemsReply := fun _ playlistId _ =>
       if decide (playlistId = "UUalpha") then Thrown NetworkError
       else if decide (playlistId = "UUbeta")
            then Returned (Some [entryB1; entryB2; entryB3])
            else Returned None;
     videosReply := fun _ _ =>
       Returned (Some [ {| vd_id := "b1"; vd_duration := "PT45S" |};
                        {| vd_id := "b2"; vd_duration := "PT5M" |};
                        {| vd_id := "b3"; vd_duration := "PT10M1S" |} ]);
     activitiesReply := fun _ _ _ => Returned (Some [postC1; postC2]) |}.

(** 51 video ids, and two upstreams for their durations: one whose first
    request throws, one whose first request is answered by an error body
    (no [items]) and every later one by 30 seconds for each id asked. *)
Definition ids51 : list string := (fun n : nat => "v" +:+ pretty n) <$> seq 0 51.

Definition throwingUpstream : Upstream :=
  {| clock := fun _ => sampleToday;
     channelsReply := fun _ _ => Returned None;
     playlistItemsReply := fun _ _ _ => Returned None;
     videosReply := fun n ids =>
       if decide (n = 0)%nat then Thrown NetworkError
       else Returned (Some ((fun i => {| vd_id := i; vd_duration := "PT30S" |}) <$> ids));
     activitiesReply := fun _ _ _ => Returned None |}.

Definition refusingUpstream : Upstream :=
  {| clock := fun _ => sampleToday;
     channelsReply := fun _ _ => Returned None;
     playlistItemsReply := fun _ _ _ => Returned None;
     videosReply := fun n ids =>
       if decide (n = 0)%nat then Returned None
       else Returned (Some ((fun i => {| vd_id := i; vd_duration := "PT30S" |}) <$> ids));
     activitiesReply := fun _ _ _ => Returned None |}.

(** Feed items: two states of the video [b1] of channel B, and [b2]. *)
Definition itemB1 (title : string) : FeedItem :=
  VideoItem {| v_id := "b1"; v_title := title; v_thumbnail := "b1.jpg";
               v_channelName := "Beta"; v_channelId := "UCbeta";
               v_publishedAt := "2024-03-01T10:00:00Z"; v_viewCount := "";
               v_duration := "Short"; v_type := shorts |}.

Definition itemB2 : FeedItem :=
  VideoItem {| v_id := "b2"; v_title := "Interview"; v_thumbnail := "b2.jpg";
               v_channelName := "Beta"; v_channelId := "UCbeta";
               v_publishedAt := "2024-03-05T10:00:00Z"; v_viewCount := "";
               v_duration := "Video"; v_type := longForm |}.

Definition itemB3 : FeedItem :=
  VideoItem {| v_id := "b3"; v_title := "Recap"; v_thumbnail := "";
               v_channelName := "Beta"; v_channelId := "UCbeta";
               v_publishedAt := "2024-03-03T10:00:00Z"; v_viewCount := "";
               v_duration := "Video"; v_type := longForm |}.

(** Search results: channel B, which [stateAB] follows, and a new channel. *)
Definition searchResultBeta : SearchResult :=
  {| sr_channelId := "UCbeta"; sr_title := "Beta";
     sr_thumbnailHigh := Some "beta-high.jpg"; sr_thumbnailMedium := Some "beta.jpg";
     sr_thumbnailDefault := None |}.

Definition searchResultDelta : SearchResult :=
  {| sr_channelId := "UCdelta"; sr_title := "Delta";
     sr_thumbnailHigh := None; sr_thumbnailMedium := Some "delta.jpg";
     sr_thumbnailDefault := None |}.

(** States of the application over the sample channels. *)
Definition stateAB : AppState :=
  {| st_channels := [channelA; channelB]; st_videos := [itemB1 "Opening (draft)"] |}.



(** [m] never calls [setVideos], and the only updates it queues for the
    registry store a playlist id on the entries of [channelId]. *)
Definition queuesOnly {A} (channelId : string) (m : IO A) : Prop :=
  forall fx,
    videosUpdates (m fx).2 = videosUpdates fx
    /\ exists uploads : list string,
         channelsUpdates (m fx).2
         = (channelsUpdates fx ++ (cacheUploads channelId <$> uploads))%list.

(** The newest element of [l] that satisfies [P] (the last one in the order
    of insertion). *)
Definition latestWith {A} (P : A -> Prop) `{forall x, Decision (P x)} (l : list A)
    : option A :=
  last (filter P l).

(** ** JavaScript's [Set] of strings

    Like [Map], a [Set] iterates in insertion order and holds a value once. *)

Module JsSet.

Definition t := list string.

Definition has (x : string) (s : t) : bool := bool_decide (x ∈ s).

Definition add (x : string) (s : t) : t :=
  if decide (x ∈ s) then s else (s ++ [x])%list.

Definition delete (x : string) (s : t) : t := filter (fun y => y <> x) s.

(** [new Set(iterable)]. *)
Definition fromArray (l : list string) : t := foldl (fun acc x => add x acc) [] l.

(** [[...s]]. *)
Definition toArray (s : t) : list string := s.

End JsSet.

(** ** Watched videos (lines 110-113, 141-143 and 155-166) *)

(** The updater [toggleWatchedVideo] passes to [setWatchedVideos]. *)
Definition toggleWatchedVideo (videoId : string) (prev : JsSet.t) : JsSet.t :=
  let newSet := JsSet.fromArray (JsSet.toArray prev) in
  if JsSet.has videoId newSet then JsSet.delete videoId newSet
  else JsSet.add videoId newSet.

(** The initializer of [watchedVideos], from what [localStorage] holds under
    [watchedVideos] (the array, once parsed). *)
Definition loadWatchedVideos (saved : option (list string)) : JsSet.t :=
  match saved with
  | Some ids => JsSet.fromArray ids
  | None => JsSet.fromArray []
  end.

(** The effect on [watchedVideos]: the array written to [localStorage]. *)
Definition saveWatchedVideos (watchedVideos : JsSet.t) : option (list string) :=
  Some (JsSet.toArray watchedVideos).

(** ** Registry edits: [removeChannel] and [updateContentType] *)

(** Lines 399-404: the registry and the selected channel [removeChannel]
    sets, from the registry and the selection it was created with. *)
Definition removeChannel (channels : list Channel) (selectedChannel : option string)
    (channelId : string) : list Channel * option string :=
  (filter (fun c => ch_id c <> channelId) channels,
   if decide (selectedChannel = Some channelId) then None else selectedChannel).

(** [{ ...contentTypes, [contentType]: enabled }]. *)
Definition setContentType (types : ContentTypes) (contentType : ContentType)
    (enabled : bool) : ContentTypes :=
  match contentType with
  | longForm => {| ct_longForm := enabled; ct_shorts := ct_shorts types;
                   ct_community := ct_community types |}
  | shorts => {| ct_longForm := ct_longForm types; ct_shorts := enabled;
                 ct_community := ct_community types |}
  | community => {| ct_longForm := ct_longForm types; ct_shorts := ct_shorts types;
                    ct_community := enabled |}
  end.

(** [contentTypes[contentType]]. *)
Definition getContentType (types : ContentTypes) (contentType : ContentType) : bool :=
  match contentType with
  | longForm => ct_longForm types
  | shorts => ct_shorts types
  | community => ct_community types
  end.

(** Lines 406-419: the registry [updateContentType] sets. *)
Definition updateContentType (channels : list Channel) (channelId : string)
    (contentType : ContentType) (enabled : bool) : list Channel :=
  (fun c => if decide (ch_id c = channelId)
            then {| ch_id := ch_id c; ch_name := ch_name c;
                    ch_thumbnail := ch_thumbnail c;
                    ch_uploadsPlaylistId := ch_uploadsPlaylistId c;
                    ch_contentTypes := setContentType (ch_contentTypes c) contentType enabled |}
            else c) <$> channels.

(** ** The grouped view: [getVideosByChannel] (lines 473-482) *)

Definition getVideosByChannel (channels : list Channel) (videos : list FeedItem)
    : list (Channel * list FeedItem) :=
  omap (fun channel =>
          let channelVideos := filter (fun v => item_channelId v = ch_id channel) videos in
          if decide (0 < length channelVideos)%nat then Some (channel, channelVideos)
          else None)
       channels.

(** ** Relative dates: [formatDate] (lines 451-463) *)

(** [date.toLocaleDateString()], the runtime's. *)
Class JsLocale := {
  Date_toLocaleDateString : string -> string
}.

(** [today] is [new Date().getTime()].  An invalid date makes every
    difference [NaN] and every comparison false. *)
Definition formatDate `{JsDate} `{JsLocale} (today : Z) (dateString : string) : string :=
  match Date_getTime dateString with
  | Some t =>
      let diffTime := Z.abs (today - t) in
      let diffDays := diffTime / (1000 * 60 * 60 * 24) in
      let diffHours := diffTime / (1000 * 60 * 60) in
      let diffMinutes := diffTime / (1000 * 60) in
      if decide (diffMinutes < 60) then pretty diffMinutes +:+ "m ago"
      else if decide (diffHours < 24) then pretty diffHours +:+ "h ago"
      else if decide (diffDays < 30) then pretty diffDays +:+ "d ago"
      else Date_toLocaleDateString dateString
  | None => Date_toLocaleDateString dateString
  end.

(** A locale that writes a date as the text it was read from. *)
#[local] Instance plainLocale : JsLocale :=
  {| Date_toLocaleDateString := fun dateString => dateString |}.

Definition item_channelName (item : FeedItem) : string :=
  match item with
  | VideoItem v => v_channelName v
  | PostItem p => p_channelName p
  end.

(** ** Shapes of what a handler sends and returns *)

(** The requests [m] adds to those sent before it. *)
Definition sent {A} (m : IO A) (fx : Effects) : list Request :=
  drop (length (requests fx)) (requests (m fx).2).

(** The kind of an item is one the channel has enabled. *)
Definition kindEnabled (channel : Channel) (item : FeedItem) : Prop :=
  getContentType (ch_contentTypes channel) (item_type item) = true.

(** The label of a video goes with its kind: [Short] for shorts, [Video] for
    long-form. *)
Definition labelMatchesKind (item : FeedItem) : Prop :=
  match item with
  | VideoItem v =>
      (v_type v = shorts /\ v_duration v = "Short")
      \/ (v_type v = longForm /\ v_duration v = "Video")
  | PostItem _ => True
  end.

(** An upstream in trouble: the durations request is answered by an error
    body, the activity feed throws.  Channel B followed for everything. *)
Definition degradedUpstream : Upstream :=
  {| clock := fun _ => sampleToday;
     channelsReply := fun _ channelId => Returned (Some ("UU" +:+ channelId));
     playlistItemsReply := fun _ _ _ => Returned (Some [entryB1; entryB2; entryB3]);
     videosReply := fun _ _ => Returned None;
     activitiesReply := fun _ _ _ => Thrown NetworkError |}.

Definition channelBAll : Channel :=
  {| ch_id := "UCbeta"; ch_name := "Beta"; ch_thumbnail := "beta.jpg";
     ch_uploadsPlaylistId := Some "UUbeta";
     ch_contentTypes := {| ct_longForm := true; ct_shorts := true; ct_community := true |} |}.



(** A playlist with an entry whose [publishedAt] is no date, between an
    older and a newer entry; a post with the same text for a date. *)
Definition entryOld : PlaylistItem :=
  {| pl_title := "Old"; pl_publishedAt := "2024-03-01T10:00:00Z";
     pl_videoId := Some "d0"; pl_thumbnailMedium := None |}.

Definition entryUndated : PlaylistItem :=
  {| pl_title := "Undated"; pl_publishedAt := "soon";
     pl_videoId := Some "d1"; pl_thumbnailMedium := None |}.

Definition entryNew : PlaylistItem :=
  {| pl_title := "New"; pl_publishedAt := "2024-03-09T10:00:00Z";
     pl_videoId := Some "d2"; pl_thumbnailMedium := None |}.

Definition postUndated : Activity :=
  {| act_id := "act-5"; act_type := "community";
     act_description := Some "Coming up";
     act_publishedAt := "soon"; act_thumbnailMedium := None |}.

Definition undatedUpstream : Upstream :=
  {| clock := fun _ => sampleToday;
     channelsReply := fun _ channelId => Returned (Some ("UU" +:+ channelId));
     playlistItemsReply := fun _ _ _ => Returned (Some [entryOld; entryUndated; entryNew]);
     videosReply := fun _ _ => Returned None;
     activitiesReply := fun _ _ _ => Returned (Some [postUndated]) |}.

Definition channelDelta : Channel :=
  {| ch_id := "UCdelta"; ch_name := "Delta"; ch_thumbnail := "delta.jpg";
     ch_uploadsPlaylistId := Some "UUUCdelta"; ch_contentTypes := defaultContentTypes |}.

Definition itemDelta (videoId title publishedAt : string) : FeedItem :=
  VideoItem {| v_id := videoId; v_title := title; v_thumbnail := "";
               v_channelName := "Delta"; v_channelId := "UCdelta";
               v_publishedAt := publishedAt; v_viewCount := "";
               v_duration := "Video"; v_type := longForm |}.

Definition itemOld : FeedItem := itemDelta "d0" "Old" "2024-03-01T10:00:00Z".
Definition itemUndated : FeedItem := itemDelta "d1" "Undated" "soon".
Definition itemNew : FeedItem := itemDelta "d2" "New" "2024-03-09T10:00:00Z".

(** No time range. *)
Definition allTime : FetchSettings :=
  {| maxVideosPerChannel := 10; timeRangeDays := 0 |}.

(** * Properties *)

(** ** The insertion-ordered map *)

Section JsMapFacts.
Context {V : Type}.
Implicit Types (m : JsMap.t V) (k : string) (v : V).

Lemma JsMap_set_keys k v m :
  JsMap.keys (JsMap.set k v m)
  = if decide (k ∈ JsMap.keys m) then JsMap.keys m else (JsMap.keys m ++ [k])%list.
Proof.
  unfold JsMap.keys. induction m as [|[k' v'] m IH]; csimpl.
  - done.
  - destruct (decide (k' = k)) as [->|Hne]; csimpl.
    + rewrite decide_True; [done | set_solver].
    + rewrite IH. destruct (decide (k ∈ m.*1)) as [Hin|Hin].
      * rewrite decide_True; [done | set_solver].
      * rewrite decide_False; [done | set_solver].
Qed.

Lemma JsMap_set_NoDup k v m :
  NoDup (JsMap.keys m) -> NoDup (JsMap.keys (JsMap.set k v m)).
Proof.
  intros Hnd. rewrite JsMap_set_keys. case_decide; [done |].
  apply NoDup_app. split_and!; [done | set_solver | apply NoDup_singleton].
Qed.

Lemma JsMap_get_set k k' v m :
  JsMap.get k' (JsMap.set k v m) = if decide (k = k') then Some v else JsMap.get k' m.
Proof.
  induction m as [|[k0 v0] m IH]; csimpl.
  - destruct (decide (k = k')); done.
  - destruct (decide (k0 = k)) as [->|Hne]; csimpl.
    + destruct (decide (k = k')); done.
    + destruct (decide (k0 = k')) as [->|Hne'].
      * rewrite decide_False; done.
      * apply IH.
Qed.

Lemma JsMap_setAll_NoDup (entries : list (string * V)) m :
  NoDup (JsMap.keys m) -> NoDup (JsMap.keys (JsMap.setAll entries m)).
Proof.
  unfold JsMap.setAll. revert m.
  induction entries as [|e entries IH]; intros m Hnd; csimpl; [done |].
  apply IH, JsMap_set_NoDup, Hnd.
Qed.

Lemma JsMap_setAll_app (es1 es2 : list (string * V)) m :
  JsMap.setAll (es1 ++ es2) m = JsMap.setAll es2 (JsMap.setAll es1 m).
Proof. unfold JsMap.setAll. apply fold_left_app. Qed.

(** What a key holds after a run of [set]: the newest entry written to it. *)
Lemma JsMap_get_setAll k (entries : list (string * V)) m :
  JsMap.get k (JsMap.setAll entries m)
  = match latestWith (fun e => e.1 = k) entries with
    | Some e => Some e.2
    | None => JsMap.get k m
    end.
Proof.
  unfold JsMap.setAll, latestWith. revert m.
  induction entries as [|e entries IH]; intros m; csimpl; [done |].
  rewrite IH, filter_cons. destruct (decide (e.1 = k)) as [Heq|Hne].
  - rewrite last_cons. destruct (last _); [done |].
    rewrite JsMap_get_set, decide_True; done.
  - destruct (last _); [done |]. rewrite JsMap_get_set, decide_False; done.
Qed.


Lemma JsMap_elem_of_get k v m :
  NoDup (JsMap.keys m) -> (k, v) ∈ m <-> JsMap.get k m = Some v.
Proof.
  unfold JsMap.keys. induction m as [|[k0 v0] m IH]; csimpl; intros Hnd.
  - split; [by intros ?%elem_of_nil | done].
  - apply NoDup_cons in Hnd as [Hk0 Hnd]. rewrite elem_of_cons.
    destruct (decide (k0 = k)) as [->|Hne].
    + split.
      * intros [[= ->]|Hin]; [done |]. exfalso. apply Hk0.
        apply list_elem_of_fmap. by exists (k, v).
      * intros [= ->]. by left.
    + rewrite <- (IH Hnd). split; [intros [[= ? ?]|?]; done | by right].
Qed.

End JsMapFacts.

(** ** The newest element with a property *)

Lemma latestWith_Some {A} (P : A -> Prop) `{forall x, Decision (P x)} (l : list A) x :
  latestWith P l = Some x ->
  P x /\ exists older newer, l = (older ++ x :: newer)%list /\ Forall (fun z => ~ P z) newer.
Proof.
  unfold latestWith. intros Hlast. split.
  - apply last_Some_elem_of, list_elem_of_filter in Hlast. tauto.
  - exact (last_filter_Some P l x Hlast).
Qed.

Lemma latestWith_split {A} (P : A -> Prop) `{forall x, Decision (P x)}
    (older newer : list A) x :
  P x -> Forall (fun z => ~ P z) newer ->
  latestWith P (older ++ x :: newer) = Some x.
Proof.
  intros HP Hnewer. unfold latestWith.
  rewrite filter_app, filter_cons_True by done.
  assert (filter P newer = []) as ->.
  { induction Hnewer as [|z newer Hz _ IH]; [done |].
    by rewrite filter_cons_False. }
  apply last_snoc.
Qed.


Lemma latestWith_is_Some {A} (P : A -> Prop) `{forall x, Decision (P x)} (l : list A) x :
  x ∈ l -> P x -> is_Some (latestWith P l).
Proof.
  intros Hin HP. unfold latestWith. apply last_is_Some.
  intros Hnil. assert (x ∈ filter P l) as Hx by (apply list_elem_of_filter; done).
  rewrite Hnil in Hx. by apply elem_of_nil in Hx.
Qed.

Lemma latestWith_fmap {A B} (f : A -> B) (P : B -> Prop) `{forall y, Decision (P y)}
    (l : list A) :
  latestWith P (f <$> l) = f <$> latestWith (fun x => P (f x)) l.
Proof.
  unfold latestWith. rewrite <- fmap_last. f_equal.
  induction l as [|x l IH]; csimpl; [done |].
  rewrite !filter_cons. case_decide; csimpl; by rewrite IH.
Qed.

(** ** The stable sort *)

Section SortFacts.
Context {A : Type} (cmp : A -> A -> option Z).

Lemma sortInsert_Permutation x (l : list A) : sortInsert cmp x l ≡ₚ x :: l.
Proof.
  induction l as [|y l IH]; simpl; [done |].
  case_decide; [done |]. rewrite IH. apply Permutation_swap.
Qed.

Lemma Array_sort_Permutation (l : list A) : Array_sort cmp l ≡ₚ l.
Proof.
  unfold Array_sort. induction l as [|x l IH]; simpl; [done |].
  by rewrite sortInsert_Permutation, IH.
Qed.

Lemma Array_sort_elem_of (l : list A) x : x ∈ Array_sort cmp l <-> x ∈ l.
Proof. by rewrite Array_sort_Permutation. Qed.


End SortFacts.

(** ** The merge of [addChannel] *)

Section MergeFacts.
Context `{JsDate}.
Implicit Types (prev newVideos : list FeedItem) (x y : FeedItem).


Lemma mergeMap_setAll prev newVideos :
  mergeMap prev newVideos
  = JsMap.setAll ((fun item => (buildVideoKey item, item)) <$> (prev ++ newVideos)%list) [].
Proof. unfold mergeMap, JsMap.fromEntries. by rewrite fmap_app, JsMap_setAll_app. Qed.

Lemma mergeMap_NoDup prev newVideos : NoDup (JsMap.keys (mergeMap prev newVideos)).
Proof. rewrite mergeMap_setAll. apply JsMap_setAll_NoDup. constructor. Qed.

(** A key of the working map holds the newest item that renders to it. *)
Lemma mergeMap_get k prev newVideos :
  JsMap.get k (mergeMap prev newVideos)
  = latestWith (fun y => buildVideoKey y = k) (prev ++ newVideos).
Proof.
  rewrite mergeMap_setAll, JsMap_get_setAll, latestWith_fmap. csimpl.
  by destruct (latestWith _ _).
Qed.

Lemma mergeMap_entry k x prev newVideos :
  (k, x) ∈ mergeMap prev newVideos ->
  k = buildVideoKey x
  /\ latestWith (fun y => buildVideoKey y = buildVideoKey x) (prev ++ newVideos) = Some x.
Proof.
  intros Hin. apply JsMap_elem_of_get in Hin; [| apply mergeMap_NoDup].
  rewrite mergeMap_get in Hin.
  destruct (latestWith_Some _ _ _ Hin) as [Hk _]. by subst k.
Qed.

Lemma mergeMap_values_keys prev newVideos :
  buildVideoKey <$> JsMap.values (mergeMap prev newVideos)
  = JsMap.keys (mergeMap prev newVideos).
Proof.
  unfold JsMap.values, JsMap.keys. rewrite <- list_fmap_compose.
  apply list_fmap_ext. intros i [k x] Hi. csimpl.
  apply list_elem_of_lookup_2, mergeMap_entry in Hi. by destruct Hi as [-> _].
Qed.

Lemma elem_of_mergeVideos x prev newVideos :
  x ∈ mergeVideos prev newVideos
  <-> latestWith (fun y => buildVideoKey y = buildVideoKey x) (prev ++ newVideos) = Some x.
Proof.
  unfold mergeVideos. rewrite Array_sort_elem_of. unfold JsMap.values. split.
  - intros ([k x'] & -> & Hin)%list_elem_of_fmap.
    apply mergeMap_entry in Hin as [_ Hin]. exact Hin.
  - intros Hlatest. rewrite <- mergeMap_get in Hlatest.
    apply JsMap_elem_of_get in Hlatest; [| apply mergeMap_NoDup].
    apply list_elem_of_fmap. by exists (buildVideoKey x, x).
Qed.

Lemma mergeVideos_NoDup_keys prev newVideos :
  NoDup (buildVideoKey <$> mergeVideos prev newVideos).
Proof.
  unfold mergeVideos. rewrite Array_sort_Permutation, mergeMap_values_keys.
  apply mergeMap_NoDup.
Qed.

(** On a list without two items of one key the map is the list itself. *)
Lemma mergeMap_NoDup_id (l : list FeedItem) (m : JsMap.t FeedItem) :
  NoDup (JsMap.keys m ++ (buildVideoKey <$> l)) ->
  JsMap.values (JsMap.setAll ((fun item => (buildVideoKey item, item)) <$> l) m)
  = (JsMap.values m ++ l)%list.
Proof.
  unfold JsMap.setAll, JsMap.values. revert m.
  induction l as [|x l IH]; intros m Hnd; csimpl; [by rewrite app_nil_r |].
  assert (buildVideoKey x ∉ JsMap.keys m) as Hfresh.
  { apply NoDup_app in Hnd as (_ & Hdisj & _). intros Hin.
    apply (Hdisj _ Hin). set_solver. }
  assert (JsMap.set (buildVideoKey x) x m = (m ++ [(buildVideoKey x, x)])%list) as Hset.
  { clear -Hfresh. induction m as [|[k v] m IHm]; csimpl; [done |].
    unfold JsMap.keys in *. csimpl in Hfresh.
    rewrite decide_False by set_solver. f_equal. apply IHm. set_solver. }
  rewrite Hset, IH.
  - rewrite fmap_app. csimpl. by rewrite <- app_assoc.
  - unfold JsMap.keys in *. rewrite fmap_app. csimpl.
    rewrite <- app_assoc. exact Hnd.
Qed.

(** *** Order after the sort *)

Lemma compareByPublishedDesc_valid x y tx ty :
  Date_getTime (item_publishedAt x) = Some tx ->
  Date_getTime (item_publishedAt y) = Some ty ->
  comparatorSign (compareByPublishedDesc x y) = ty - tx.
Proof. unfold compareByPublishedDesc. intros -> ->. reflexivity. Qed.

Lemma notOlder_trans x y z : notOlder x y -> notOlder y z -> notOlder x z.
Proof.
  unfold notOlder.
  destruct (Date_getTime (item_publishedAt x)), (Date_getTime (item_publishedAt y)),
    (Date_getTime (item_publishedAt z)); try tauto. lia.
Qed.

Lemma sortInsert_sorted x (l : list FeedItem) :
  validDate x -> Forall validDate l -> StronglySorted notOlder l ->
  StronglySorted notOlder (sortInsert compareByPublishedDesc x l).
Proof.
  intros [tx Hx] Hvalid Hsorted.
  induction Hsorted as [|y l Hl IH Hy]; simpl.
  - repeat constructor.
  - apply Forall_cons in Hvalid as [[ty Hty] Hvalid].
    rewrite (compareByPublishedDesc_valid x y tx ty) by done.
    case_decide as Hcmp.
    + assert (notOlder x y) as Hxy by (unfold notOlder; rewrite Hx, Hty; lia).
      constructor; [by constructor |].
      constructor; [done |].
      eapply Forall_impl; [exact Hy |]. intros z Hz. by eapply notOlder_trans.
    + constructor; [by apply IH |].
      rewrite sortInsert_Permutation. constructor; [| done].
      unfold notOlder. rewrite Hx, Hty. lia.
Qed.

Lemma Array_sort_sorted (l : list FeedItem) :
  Forall validDate l -> StronglySorted notOlder (Array_sort compareByPublishedDesc l).
Proof.
  unfold Array_sort. induction 1 as [|x l Hx Hl IH]; simpl; [constructor |].
  apply sortInsert_sorted; [done | | done].
  by rewrite (Array_sort_Permutation compareByPublishedDesc l : foldr _ _ _ ≡ₚ l).
Qed.

Lemma mergeVideos_subseteq x prev newVideos :
  x ∈ mergeVideos prev newVideos -> x ∈ (prev ++ newVideos)%list.
Proof.
  intros (_ & older & newer & -> & _)%elem_of_mergeVideos%latestWith_Some.
  set_solver.
Qed.

End MergeFacts.


(** ** The batched lookup *)

Section BatchFacts.
Context (up : Upstream).

Lemma fetchDurationsFrom_step videoIds i acc fx :
  fetchDurationsFrom up videoIds i acc fx
  = if decide (i < length videoIds)%nat then
      match getVideos up (slice i (i + batchSize) videoIds) fx with
      | (Returned videoData, fx') =>
          fetchDurationsFrom up videoIds (i + batchSize) (storeDurations videoData acc) fx'
      | (Thrown e, fx') => (Thrown e, fx')
      end
    else (Returned acc, fx).
Proof.
  rewrite fetchDurationsFrom_equation_1.
  destruct (decide (i < length videoIds)%nat); simpl; [| done].
  by destruct (videosReply up _ _).
Qed.

Lemma ceilDiv_batchSize_gt (n k : nat) :
  (k * batchSize < n)%nat <-> (k < ceilDiv n batchSize)%nat.
Proof.
  unfold ceilDiv, batchSize.
  pose proof (Nat.div_mod_eq (n + 50 - 1) 50) as Hdiv.
  pose proof (Nat.mod_upper_bound (n + 50 - 1) 50) as Hmod.
  lia.
Qed.

(** The loop entered at the start of batch [k] sends the remaining batches. *)
Lemma fetchDurationsFrom_batches videoIds remaining :
  forall k acc fx,
  (remaining = ceilDiv (length videoIds) batchSize - k)%nat ->
  fetchDurationsFrom up videoIds (k * batchSize) acc fx
  = fetchBatches up (batchAt videoIds <$> seq k remaining) acc fx.
Proof.
  induction remaining as [|remaining IH]; intros k acc fx Hrem;
    rewrite fetchDurationsFrom_step.
  - rewrite decide_False; [done |]. rewrite ceilDiv_batchSize_gt. lia.
  - rewrite decide_True by (rewrite ceilDiv_batchSize_gt; lia).
    csimpl. unfold bind, batchAt at 1, getVideos.
    destruct (videosReply up _ _) as [videoData|e]; [| done].
    replace (k * batchSize + batchSize)%nat with (S k * batchSize)%nat by lia.
    apply IH. lia.
Qed.

Lemma fetchDurations_batches videoIds fx :
  fetchDurations up videoIds fx = fetchBatches up (batches videoIds) ∅ fx.
Proof.
  unfold fetchDurations, batches. case_decide as Hlen.
  - rewrite <- (fetchDurationsFrom_batches videoIds _ 0%nat); [done | lia].
  - destruct videoIds; [done | simpl in Hlen; lia].
Qed.

(** *** The batches *)

Lemma ceilDiv_batchSize_bounds (n : nat) :
  (n <= batchSize * ceilDiv n batchSize < n + batchSize)%nat.
Proof.
  unfold ceilDiv, batchSize.
  pose proof (Nat.div_mod_eq (n + 50 - 1) 50) as Hdiv.
  pose proof (Nat.mod_upper_bound (n + 50 - 1) 50) as Hmod.
  lia.
Qed.

Lemma batches_length videoIds :
  length (batches videoIds) = ceilDiv (length videoIds) batchSize.
Proof. unfold batches. by rewrite length_fmap, length_seq. Qed.

Lemma batchAt_length videoIds k : (length (batchAt videoIds k) <= batchSize)%nat.
Proof.
  unfold batchAt, slice, batchSize. rewrite length_take.
  etrans; [apply Nat.le_min_l | lia].
Qed.

Lemma batches_bounded videoIds :
  Forall (fun batch => (length batch <= batchSize)%nat) (batches videoIds).
Proof.
  unfold batches. apply Forall_fmap, Forall_forall. intros k _.
  apply batchAt_length.
Qed.

Lemma concat_batchAt videoIds count : forall k,
  concat (batchAt videoIds <$> seq k count)
  = take (count * batchSize) (drop (k * batchSize) videoIds).
Proof.
  induction count as [|count IH]; intros k; csimpl; [done |].
  rewrite IH. unfold batchAt, slice.
  replace (k * batchSize + batchSize - k * batchSize)%nat with batchSize
    by (unfold batchSize; lia).
  replace (S k * batchSize)%nat with (k * batchSize + batchSize)%nat
    by (unfold batchSize; lia).
  rewrite <- drop_drop. apply take_take_drop.
Qed.

Lemma batches_concat videoIds : concat (batches videoIds) = videoIds.
Proof.
  unfold batches. rewrite concat_batchAt.
  change (0 * batchSize)%nat with 0%nat. rewrite drop_0. apply take_ge.
  pose proof (ceilDiv_batchSize_bounds (length videoIds)). unfold batchSize in *. lia.
Qed.

(** *** The requests and the durations they leave *)

Lemma sendAll_requests rs fx : requests (sendAll rs fx) = (requests fx ++ rs)%list.
Proof.
  unfold sendAll. revert fx. induction rs as [|r rs IH]; intros fx; simpl.
  - by rewrite app_nil_r.
  - rewrite IH. simpl. by rewrite <- app_assoc.
Qed.

Lemma sendAll_app rs1 rs2 fx : sendAll (rs1 ++ rs2) fx = sendAll rs2 (sendAll rs1 fx).
Proof. unfold sendAll. apply foldl_app. Qed.

(** When every batch is answered, each body is stored in turn and every batch
    has been requested. *)
Lemma fetchBatches_returned bs : forall acc fx datas,
  imap (fun j batch => videosReply up (length (requests fx) + j) batch) bs
    = Returned <$> datas ->
  fetchBatches up bs acc fx
  = (Returned (foldl (fun a videoData => storeDurations videoData a) acc datas),
     sendAll (GetVideos <$> bs) fx).
Proof.
  induction bs as [|batch bs IH]; intros acc fx datas Hreplies.
  - destruct datas; [done | discriminate].
  - destruct datas as [|videoData datas]; [discriminate |].
    csimpl in Hreplies. injection Hreplies as Hfirst Hrest.
    csimpl. unfold bind, getVideos.
    rewrite Nat.add_0_r in Hfirst. rewrite Hfirst.
    apply IH. rewrite <- Hrest. apply imap_ext. intros j b _. simpl.
    rewrite length_app. simpl. f_equal. lia.
Qed.

(** A batch that throws ends the lookup: the batches after it are not
    requested and the durations stored so far are lost with it. *)
Lemma fetchBatches_thrown answered batch rest : forall acc fx datas e,
  imap (fun j b => videosReply up (length (requests fx) + j) b) answered
    = Returned <$> datas ->
  videosReply up (length (requests fx) + length answered) batch = Thrown e ->
  fetchBatches up (answered ++ batch :: rest) acc fx
  = (Thrown e, sendAll (GetVideos <$> (answered ++ [batch])%list) fx).
Proof.
  induction answered as [|b answered IH]; intros acc fx datas e Hreplies Hthrown.
  - csimpl. unfold bind, getVideos. simpl in Hthrown.
    rewrite Nat.add_0_r in Hthrown. by rewrite Hthrown.
  - destruct datas as [|videoData datas]; [discriminate |].
    csimpl in Hreplies. injection Hreplies as Hfirst Hrest.
    csimpl. unfold bind, getVideos.
    rewrite Nat.add_0_r in Hfirst. rewrite Hfirst.
    apply (IH _ _ datas).
    + rewrite <- Hrest. apply imap_ext. intros j b' _. simpl.
      rewrite length_app. simpl. f_equal. lia.
    + rewrite <- Hthrown. simpl. rewrite length_app. simpl. f_equal. lia.
Qed.

End BatchFacts.

(** ** Effects of one channel's fetch *)

Section EffectFacts.
Context `{JsDate} (up : Upstream).

Lemma queuesOnly_ret {A} channelId (a : A) : queuesOnly channelId (ret a).
Proof. intros fx. split; [done |]. exists []. by rewrite app_nil_r. Qed.

Lemma queuesOnly_bind {A B} channelId (m : IO A) (k : A -> IO B) :
  queuesOnly channelId m -> (forall a, queuesOnly channelId (k a)) ->
  queuesOnly channelId (bind m k).
Proof.
  intros Hm Hk fx. unfold bind. destruct (Hm fx) as [Hv [us Hc]].
  destruct (m fx) as [[a|e] fx']; simpl in *.
  - destruct (Hk a fx') as [Hv' [us' Hc']]. split; [congruence |].
    exists (us ++ us')%list. rewrite Hc', Hc, fmap_app. by rewrite <- app_assoc.
  - split; [done |]. by exists us.
Qed.

Lemma queuesOnly_send {A} channelId (reply : Effects -> outcome A) (r : Effects -> Request) :
  queuesOnly channelId (fun fx => (reply fx, send (r fx) fx)).
Proof. intros fx. split; [done |]. exists []. by rewrite app_nil_r. Qed.

Lemma queuesOnly_fetchBatches channelId bs : forall acc,
  queuesOnly channelId (fetchBatches up bs acc).
Proof.
  induction bs as [|b bs IH]; intros acc; simpl.
  - apply queuesOnly_ret.
  - apply queuesOnly_bind; [apply queuesOnly_send | intros; apply IH].
Qed.

Lemma queuesOnly_fetchDurations channelId videoIds :
  queuesOnly channelId (fetchDurations up videoIds).
Proof.
  intros fx. rewrite fetchDurations_batches. apply queuesOnly_fetchBatches.
Qed.

Lemma queuesOnly_resolve channel :
  queuesOnly (ch_id channel) (resolveUploadsPlaylistId up channel).
Proof.
  unfold resolveUploadsPlaylistId. destruct (truthy _); [apply queuesOnly_ret |].
  apply queuesOnly_bind; [apply queuesOnly_send |]. intros uploads.
  destruct (truthy uploads) as [u|]; [| apply queuesOnly_ret].
  apply queuesOnly_bind; [| intros; apply queuesOnly_ret].
  intros fx. split; [done |]. by exists [u].
Qed.

Lemma queuesOnly_fetchPlaylistVideos channelId channel fetchSettings cutoff uploads :
  queuesOnly channelId (fetchPlaylistVideos up channel fetchSettings cutoff uploads).
Proof.
  unfold fetchPlaylistVideos. destruct uploads; [| apply queuesOnly_ret].
  destruct (_ || _); [| apply queuesOnly_ret].
  apply queuesOnly_bind; [apply queuesOnly_send |]. intros [[|item more]|];
    try apply queuesOnly_ret.
  apply queuesOnly_bind; [apply queuesOnly_fetchDurations |].
  intros; apply queuesOnly_ret.
Qed.

Lemma queuesOnly_fetchCommunityPosts channelId channel fetchSettings cutoff :
  queuesOnly channelId (fetchCommunityPosts up channel fetchSettings cutoff).
Proof.
  unfold fetchCommunityPosts. destruct (ct_community _); [| apply queuesOnly_ret].
  apply queuesOnly_bind; [apply queuesOnly_send |].
  intros [entries|]; apply queuesOnly_ret.
Qed.

Lemma queuesOnly_fetchChannelVideos apiKey fetchSettings channel :
  queuesOnly (ch_id channel) (fetchChannelVideos up apiKey fetchSettings channel).
Proof.
  unfold fetchChannelVideos. case_decide.
  - apply queuesOnly_bind; [| intros; apply queuesOnly_ret].
    intros fx. split; [done |]. exists []. by rewrite app_nil_r.
  - apply queuesOnly_bind.
    { intros fx. split; [done |]. exists []. by rewrite app_nil_r. }
    intros today. apply queuesOnly_bind; [apply queuesOnly_resolve |].
    intros uploads. apply queuesOnly_bind; [apply queuesOnly_fetchPlaylistVideos |].
    intros videos. apply queuesOnly_bind; [apply queuesOnly_fetchCommunityPosts |].
    intros; apply queuesOnly_ret.
Qed.

End EffectFacts.

(** ** The full refresh *)

Section RefreshFacts.
Context `{JsDate} (up : Upstream).
Implicit Types (channels : list Channel) (fx : Effects).

(** The loop of [fetchVideos] never throws: it gathers what each channel
    contributes. *)
Lemma fetchEachChannel_outcomes apiKey fetchSettings channels : forall allVideos fx,
  fetchEachChannel up apiKey fetchSettings channels allVideos fx
  = (Returned (allVideos
       ++ concat (contribution <$> (channelOutcomes up apiKey fetchSettings channels fx).1))%list,
     (channelOutcomes up apiKey fetchSettings channels fx).2).
Proof.
  induction channels as [|channel rest IH]; intros allVideos fx; simpl.
  - unfold ret. by rewrite app_nil_r.
  - unfold bind at 1, tryCatch, bind at 1.
    destruct (fetchChannelVideos up apiKey fetchSettings channel fx) as [[items|e] fx'];
      simpl; rewrite IH;
      destruct (channelOutcomes up apiKey fetchSettings rest fx') as [rs fx'']; simpl.
    + by rewrite <- app_assoc.
    + done.
Qed.

Lemma channelOutcomes_videosUpdates apiKey fetchSettings channels : forall fx,
  videosUpdates (channelOutcomes up apiKey fetchSettings channels fx).2 = videosUpdates fx.
Proof.
  induction channels as [|channel rest IH]; intros fx; simpl; [done |].
  pose proof (queuesOnly_fetchChannelVideos up apiKey fetchSettings channel fx) as [Hv _].
  destruct (fetchChannelVideos up apiKey fetchSettings channel fx) as [r fx'].
  specialize (IH fx').
  destruct (channelOutcomes up apiKey fetchSettings rest fx') as [rs fx''].
  simpl in *. congruence.
Qed.


(** With a registry and a key, the refresh puts in place of the feed the
    sorted gathering of what the channels contribute. *)
Lemma refresh_replaces apiKey fetchSettings st :
  st_channels st <> [] -> apiKey <> "" ->
  let outs := channelOutcomes up apiKey fetchSettings (st_channels st) noEffects in
  refresh up apiKey fetchSettings st
  = (Returned tt,
     {| st_channels := applyUpdates (channelsUpdates outs.2) (st_channels st);
        st_videos := Array_sort compareByPublishedDesc (concat (contribution <$> outs.1)) |},
     requests outs.2).
Proof.
  intros Hchannels Hkey outs. unfold refresh, runHandler, fetchVideos.
  rewrite decide_False by (destruct (st_channels st); done).
  rewrite decide_False by done.
  unfold bind. rewrite fetchEachChannel_outcomes. fold outs. simpl.
  unfold commit. simpl. f_equal. f_equal.
  pose proof (channelOutcomes_videosUpdates apiKey fetchSettings (st_channels st) noEffects)
    as Hv. fold outs in Hv. rewrite Hv. simpl.
  reflexivity.
Qed.

(** Without a registry or without a key the refresh changes nothing. *)
Lemma refresh_idle apiKey fetchSettings st :
  st_channels st = [] \/ apiKey = "" ->
  exists reqs, refresh up apiKey fetchSettings st = (Returned tt, st, reqs).
Proof.
  intros Hidle. unfold refresh, runHandler, fetchVideos. destruct st as [channels videos].
  simpl in *. case_decide as Hlen.
  - by exists [].
  - rewrite decide_True; [by exists [] |].
    destruct Hidle as [->|]; [done | done].
Qed.

End RefreshFacts.

(** ** Adding a channel *)

Section AddFacts.
Context `{JsDate} (up : Upstream).

Lemma findChannel_None channels channelId :
  findChannel channels channelId = None <-> channelId ∉ (ch_id <$> channels).
Proof.
  unfold findChannel. rewrite fmap_None, list_find_None, Forall_forall.
  rewrite list_elem_of_fmap. naive_solver.
Qed.

Lemma cacheUploads_absent channelId uploads channels :
  channelId ∉ (ch_id <$> channels) -> cacheUploads channelId uploads channels = channels.
Proof.
  intros Habsent. unfold cacheUploads.
  rewrite <- (list_fmap_id channels) at 2. apply list_fmap_ext.
  intros i c Hc. rewrite decide_False; [done |].
  intros <-. apply Habsent, list_elem_of_fmap. exists c.
  split; [done |]. by eapply list_elem_of_lookup_2.
Qed.

Lemma cacheUploads_ids channelId uploads channels :
  ch_id <$> cacheUploads channelId uploads channels = ch_id <$> channels.
Proof.
  unfold cacheUploads. rewrite <- list_fmap_compose. apply list_fmap_ext.
  intros i c _. simpl. by case_decide.
Qed.

(** The registry after the append and the updates that follow it. *)
Lemma applyUpdates_cache_new channels (c : Channel) (uploads : list string) :
  ch_id c ∉ (ch_id <$> channels) ->
  exists c', applyUpdates (cacheUploads (ch_id c) <$> uploads) (channels ++ [c])%list
             = (channels ++ [c'])%list
    /\ ch_id c' = ch_id c /\ ch_name c' = ch_name c
    /\ ch_thumbnail c' = ch_thumbnail c /\ ch_contentTypes c' = ch_contentTypes c.
Proof.
  intros Habsent. revert c Habsent.
  induction uploads as [|u uploads IH]; intros c Habsent; csimpl.
  - by exists c.
  - unfold cacheUploads at 2. rewrite fmap_app. fold (cacheUploads (ch_id c) u channels).
    rewrite cacheUploads_absent by done. csimpl. rewrite decide_True by done.
    match goal with |- context [ (channels ++ [?d])%list ] => destruct (IH d) as (c' & Heq & ?) end;
      [done |].
    simpl in Heq. exists c'. split; [exact Heq | tauto].
Qed.

(** How [addChannel] ends, with the registry [channels] it was created with. *)
Lemma addChannel_effects apiKey fetchSettings channels channel fx :
  let channelId := sr_channelId channel in
  exists fx', addChannel up apiKey fetchSettings channels channel fx = (Returned tt, fx')
    /\ (channelId ∈ (ch_id <$> channels) ->
        fx' = send (GetChannels channelId) fx)
    /\ (channelId ∉ (ch_id <$> channels) ->
        exists uploadsPlaylistId uploads,
          channelsUpdates fx'
          = (channelsUpdates fx
              ++ (fun prev => prev ++ [newChannelOf channel uploadsPlaylistId])%list
              :: (cacheUploads channelId <$> uploads))%list
          /\ (videosUpdates fx' = videosUpdates fx
              \/ exists newVideos, newVideos <> []
                   /\ videosUpdates fx'
                      = (videosUpdates fx ++ [fun prev => mergeVideos prev newVideos])%list)).
Proof.
  intros channelId. unfold addChannel, bind at 1, tryCatch at 1, bind at 1, getChannels.
  set (fx1 := send (GetChannels (sr_channelId channel)) fx).
  assert (exists uploadsPlaylistId,
    match
      match channelsReply up (length (requests fx)) (sr_channelId channel) with
      | Returned a => ret (orElse a "") fx1
      | Thrown e => (Thrown e, fx1)
      end
    with
    | (Returned a, fx') => (Returned a, fx')
    | (Thrown e, fx') => ret "" fx'
    end = (Returned uploadsPlaylistId, fx1)) as [uploadsPlaylistId ->].
  { destruct (channelsReply up _ _); by eexists. }
  change (ch_id (newChannelOf channel uploadsPlaylistId)) with channelId.
  destruct (findChannel channels channelId) as [found|] eqn:Hfind.
  - exists fx1. split; [done |]. split; [done |].
    intros Habsent. apply findChannel_None in Habsent. congruence.
  - apply findChannel_None in Hfind.
    unfold bind at 1, setChannels at 1, tryCatch, bind at 1.
    set (newChannel := newChannelOf channel uploadsPlaylistId).
    set (fx2 := {| requests := requests fx1;
                   channelsUpdates := channelsUpdates fx1 ++ [fun prev => (prev ++ [newChannel])%list];
                   videosUpdates := videosUpdates fx1;
                   apiKeyRequested := apiKeyRequested fx1 |}).
    pose proof (queuesOnly_fetchChannelVideos up apiKey fetchSettings newChannel fx2)
      as [Hv [uploads Hc]].
    destruct (fetchChannelVideos up apiKey fetchSettings newChannel fx2) as [[newVideos|e] fx3];
      simpl in Hv, Hc.
    + case_decide as Hlen.
      * eexists. split; [reflexivity |]. split; [done |]. intros _.
        exists uploadsPlaylistId, uploads. simpl. rewrite Hc, Hv. simpl.
        rewrite <- app_assoc. split; [done |]. right. exists newVideos.
        split; [by destruct newVideos; simpl in Hlen; [lia |] | done].
      * eexists. split; [reflexivity |]. split; [done |]. intros _.
        exists uploadsPlaylistId, uploads. rewrite Hc, Hv. simpl.
        rewrite <- app_assoc. split; [done |]. by left.
    + eexists. split; [reflexivity |]. split; [done |]. intros _.
      exists uploadsPlaylistId, uploads. rewrite Hc, Hv. simpl.
      rewrite <- app_assoc. split; [done |]. by left.
Qed.

End AddFacts.

Section AddRunFacts.
Context `{JsDate} (up : Upstream).

(** A run of [addChannel] on the current registry: no error reaches the
    caller; a channel already present changes nothing; a new one is appended
    (with the playlist id its fetch may have stored on it) and the feed is
    left alone or merged with the non-empty list fetched for it. *)
Lemma add_outcome apiKey fetchSettings channel st :
  let channelId := sr_channelId channel in
  exists st' reqs,
    add up apiKey fetchSettings channel st = (Returned tt, st', reqs)
    /\ (channelId ∈ (ch_id <$> st_channels st) -> st' = st)
    /\ (channelId ∉ (ch_id <$> st_channels st) ->
        (exists c, st_channels st' = (st_channels st ++ [c])%list
           /\ ch_id c = channelId /\ ch_name c = sr_title channel
           /\ ch_thumbnail c = getSnippetThumbnail channel
           /\ ch_contentTypes c
              = {| ct_longForm := true; ct_shorts := true; ct_community := false |})
        /\ (st_videos st' = st_videos st
            \/ exists newVideos, newVideos <> []
                 /\ st_videos st' = mergeVideos (st_videos st) newVideos)).
Proof.
  intros channelId. unfold add, runHandler.
  destruct (addChannel_effects up apiKey fetchSettings (st_channels st) channel noEffects)
    as (fx' & -> & Hdup & Hnew).
  eexists _, _. split; [reflexivity |]. fold channelId in Hdup, Hnew. split.
  - intros Hin. rewrite (Hdup Hin). by destruct st.
  - intros Habsent. destruct (Hnew Habsent) as (u & uploads & Hc & Hv).
    simpl in Hc, Hv. unfold commit. cbn [st_channels st_videos]. rewrite Hc. split.
    + destruct (applyUpdates_cache_new (st_channels st) (newChannelOf channel u) uploads)
        as (c & Heq & Hid & Hname & Hthumb & Htypes); [done |].
      exists c. split; [exact Heq | done].
    + destruct Hv as [-> | (newVideos & Hne & ->)]; [by left |].
      right. by exists newVideos.
Qed.

End AddRunFacts.

(** ** The classifier *)

Section ClassifierFacts.

Lemma spanDigits_number (d : string) (c : ascii) (rest : string) :
  allDigits d = true -> isDigit c = false ->
  spanDigits (d +:+ String c rest) = (d, String c rest).
Proof.
  intros Hd Hc. induction d as [|a d IH]; simpl in *.
  - by rewrite Hc.
  - apply andb_prop in Hd as [-> Hd]. by rewrite IH.
Qed.

Lemma spanDigits_all (d : string) : allDigits d = true -> spanDigits d = (d, "").
Proof.
  intros Hd. induction d as [|a d IH]; simpl in *; [done |].
  apply andb_prop in Hd as [-> Hd]. by rewrite IH.
Qed.

Lemma matchNumberUnit_hit (u : ascii) (d rest : string) :
  isNumber d -> isDigit u = false ->
  matchNumberUnit u (d +:+ String u rest) = (Some d, rest).
Proof.
  intros [Hne Hd] Hu. unfold matchNumberUnit. rewrite spanDigits_number by done.
  destruct d; [done |]. by rewrite decide_True.
Qed.

Lemma matchNumberUnit_miss (u c : ascii) (d rest : string) :
  allDigits d = true -> isDigit c = false -> c <> u ->
  matchNumberUnit u (d +:+ String c rest) = (None, d +:+ String c rest).
Proof.
  intros Hd Hc Hne. unfold matchNumberUnit. rewrite spanDigits_number by done.
  destruct d; [done |]. by rewrite decide_False.
Qed.

Lemma matchNumberUnit_end (u : ascii) : matchNumberUnit u "" = (None, "").
Proof. reflexivity. Qed.

Lemma parseInt_number (d : string) : isNumber d -> parseInt d = Some (digitsValue 0 d).
Proof.
  intros [Hne Hd]. unfold parseInt. rewrite spanDigits_all by done. by destruct d.
Qed.

Lemma orElse_number (d : string) (b : string) : isNumber d -> orElse (Some d) b = d.
Proof. intros [Hne _]. unfold orElse, truthy. by rewrite decide_False. Qed.

Lemma durationMatch_PT (rest : string) :
  durationMatch ("PT" +:+ rest) = Some (matchAfterPT rest).
Proof. reflexivity. Qed.

(** Minutes and seconds are read as written. *)
Lemma totalSeconds_minutesSeconds (m sec : string) :
  isNumber m -> isNumber sec ->
  totalSeconds (minutesSecondsCode m sec) = Some (digitsValue 0 m * 60 + digitsValue 0 sec).
Proof.
  intros Hm Hs. unfold totalSeconds, minutesSecondsCode.
  rewrite durationMatch_PT. unfold matchAfterPT.
  change (m +:+ "M" +:+ sec +:+ "S") with (m +:+ String "M" (sec +:+ String "S" "")).
  rewrite (matchNumberUnit_hit "M" m) by done.
  rewrite (matchNumberUnit_hit "S" sec "") by done. simpl.
  rewrite !orElse_number, !parseInt_number by done. reflexivity.
Qed.

Lemma totalSeconds_minutes (m : string) :
  isNumber m -> totalSeconds (minutesCode m) = Some (digitsValue 0 m * 60 + 0).
Proof.
  intros Hm. unfold totalSeconds, minutesCode.
  rewrite durationMatch_PT. unfold matchAfterPT.
  change (m +:+ "M") with (m +:+ String "M" "").
  rewrite (matchNumberUnit_hit "M" m "") by done.
  rewrite matchNumberUnit_end. simpl.
  rewrite orElse_number, parseInt_number by done. reflexivity.
Qed.

Lemma totalSeconds_seconds (sec : string) :
  isNumber sec -> totalSeconds (secondsCode sec) = Some (0 * 60 + digitsValue 0 sec).
Proof.
  intros Hs. unfold totalSeconds, secondsCode.
  rewrite durationMatch_PT. unfold matchAfterPT.
  change (sec +:+ "S") with (sec +:+ String "S" "").
  rewrite (matchNumberUnit_miss "M" "S" sec "") by (done || apply Hs).
  rewrite (matchNumberUnit_hit "S" sec "") by done. simpl.
  rewrite orElse_number, parseInt_number by done. reflexivity.
Qed.

(** The hours, and everything written after them, are not read at all. *)
Lemma totalSeconds_hours (h rest : string) :
  isNumber h -> totalSeconds (hoursCode h rest) = Some 0.
Proof.
  intros Hh. unfold totalSeconds, hoursCode.
  rewrite durationMatch_PT. unfold matchAfterPT.
  change (h +:+ "H" +:+ rest) with (h +:+ String "H" rest).
  rewrite (matchNumberUnit_miss "M" "H" h rest) by (done || apply Hh).
  rewrite (matchNumberUnit_miss "S" "H" h rest) by (done || apply Hh).
  reflexivity.
Qed.

(** A text in which [PT] does not occur is read as zero seconds. *)
Lemma totalSeconds_no_match (durationStr : string) :
  durationMatch durationStr = None -> totalSeconds durationStr = Some 0.
Proof. intros Hnone. unfold totalSeconds. by rewrite Hnone. Qed.

Lemma classify_known (videoId durationStr : string) (videoDurations : gmap string string) :
  videoId <> "" -> durationStr <> "" -> videoDurations !! videoId = Some durationStr ->
  classify (Some videoId) videoDurations
  = if atMost60 (totalSeconds durationStr) then ("Short", shorts) else ("Video", longForm).
Proof.
  intros Hid Hd Hlookup. unfold classify, truthy.
  rewrite decide_False by done. rewrite Hlookup. by rewrite decide_False.
Qed.

(** Without a video id, or without a duration for it, the entry is long-form
    with the label [Video]. *)
Lemma classify_unknown (videoId : option string) (videoDurations : gmap string string) :
  truthy videoId = None \/ (forall vid, videoId = Some vid -> truthy (videoDurations !! vid) = None) ->
  classify videoId videoDurations = ("Video", longForm).
Proof.
  intros [Hnone | Hnone]; unfold classify; [by rewrite Hnone |].
  destruct (truthy videoId) as [vid|] eqn:Hvid; [| done].
  assert (videoId = Some vid) as ->.
  { destruct videoId as [s|]; [| done]. simpl in Hvid. by case_decide; simplify_eq. }
  by rewrite Hnone.
Qed.

(** On the codes of minutes and seconds the label follows the 60 seconds. *)
Lemma classify_minutesSeconds (videoId m sec : string) :
  videoId <> "" -> isNumber m -> isNumber sec ->
  classify (Some videoId) {[ videoId := minutesSecondsCode m sec ]}
  = if bool_decide (digitsValue 0 m * 60 + digitsValue 0 sec <= 60)
    then ("Short", shorts) else ("Video", longForm).
Proof.
  intros Hid Hm Hs.
  rewrite (classify_known videoId (minutesSecondsCode m sec));
    [| done | done | apply lookup_singleton_eq].
  by rewrite totalSeconds_minutesSeconds.
Qed.

Lemma classify_seconds (videoId sec : string) :
  videoId <> "" -> isNumber sec ->
  classify (Some videoId) {[ videoId := secondsCode sec ]}
  = if bool_decide (0 * 60 + digitsValue 0 sec <= 60)
    then ("Short", shorts) else ("Video", longForm).
Proof.
  intros Hid Hs.
  rewrite (classify_known videoId (secondsCode sec));
    [| done | done | apply lookup_singleton_eq].
  by rewrite totalSeconds_seconds.
Qed.

Lemma classify_minutes (videoId m : string) :
  videoId <> "" -> isNumber m ->
  classify (Some videoId) {[ videoId := minutesCode m ]}
  = if bool_decide (digitsValue 0 m * 60 + 0 <= 60)
    then ("Short", shorts) else ("Video", longForm).
Proof.
  intros Hid Hm.
  rewrite (classify_known videoId (minutesCode m));
    [| done | done | apply lookup_singleton_eq].
  by rewrite totalSeconds_minutes.
Qed.

End ClassifierFacts.

(** ** Runs on the sample data *)

Example classify_45_seconds :
  classify (Some "b1") {[ "b1" := "PT45S" ]} = ("Short", shorts).
Proof. vm_compute. reflexivity. Qed.

Example classify_one_minute :
  classify (Some "b1") {[ "b1" := "PT1M" ]} = ("Short", shorts).
Proof. vm_compute. reflexivity. Qed.

Example classify_five_minutes :
  classify (Some "b1") {[ "b1" := "PT5M" ]} = ("Video", longForm).
Proof. vm_compute. reflexivity. Qed.

Example classify_no_duration :
  classify (Some "b1") ∅ = ("Video", longForm).
Proof. vm_compute. reflexivity. Qed.

Example utcGetTime_epoch_day : utcGetTime "1970-01-02T00:00:01Z" = Some 86401000.
Proof. vm_compute. reflexivity. Qed.

Example utcGetTime_sampleToday : utcGetTime "2024-03-10T00:00:00Z" = Some sampleToday.
Proof. vm_compute. reflexivity. Qed.

Example utcGetTime_words : utcGetTime "yesterday" = None.
Proof. vm_compute. reflexivity. Qed.

(** The refresh over channels A and B: A's playlist request throws, B's three
    videos make the feed, and three requests have been sent. *)
Example refresh_stateAB :
  refresh sampleUpstream "KEY" sampleSettings stateAB
  = (Returned tt,
     {| st_channels := [channelA; channelB];
        st_videos := [itemB2; itemB3; itemB1 "Opening"] |},
     [GetPlaylistItems "UUalpha" 20; GetPlaylistItems "UUbeta" 20;
      GetVideos ["b1"; "b2"; "b3"]]).
Proof. vm_compute. reflexivity. Qed.

(** Adding a new channel: its playlist is looked up, it joins the registry
    and, the upstream having no playlist items for it, the feed stays. *)
Example add_delta_stateAB :
  (add sampleUpstream "KEY" sampleSettings searchResultDelta stateAB).1
  = (Returned tt,
     {| st_channels :=
          [channelA; channelB;
           {| ch_id := "UCdelta"; ch_name := "Delta"; ch_thumbnail := "delta.jpg";
              ch_uploadsPlaylistId := Some "UUUCdelta";
              ch_contentTypes := defaultContentTypes |}];
        st_videos := [itemB1 "Opening (draft)"] |}).
Proof. vm_compute. reflexivity. Qed.

(** ** The two kinds a playlist entry can get *)

Lemma classify_cases videoId videoDurations :
  classify videoId videoDurations = ("Short", shorts)
  \/ classify videoId videoDurations = ("Video", longForm).
Proof.
  unfold classify. destruct (truthy videoId); [| by right].
  destruct (truthy (_ !! _)); [| by right].
  destruct (atMost60 _); [by left | by right].
Qed.

(** ** The rendered key and the composite key *)

Section KeyFacts.




End KeyFacts.

(** * The claims *)




(** C2. The classifier on codes of an hour or more, and on a text that is no
    code.  [PT1H] encodes 3600 seconds and [PT1H30M15S] 5415 seconds, yet
    both are labelled short-form with the label [Short], as every code that
    starts with hours is; a duration text with no [PT] in it is labelled
    short-form too. *)
Theorem classify_hours_as_short :
  classify (Some "v1") {[ "v1" := "PT1H" ]} = ("Short", shorts)
  /\ classify (Some "v1") {[ "v1" := "PT1H30M15S" ]} = ("Short", shorts)
  /\ classify (Some "v1") {[ "v1" := "unknown" ]} = ("Short", shorts)
  /\ (forall h rest, isNumber h ->
        classify (Some "v1") {[ "v1" := hoursCode h rest ]} = ("Short", shorts)).
Proof.
  split_and!; try (vm_compute; reflexivity).
  intros h rest Hh. rewrite (classify_known "v1" (hoursCode h rest)).
  - by rewrite totalSeconds_hours.
  - done.
  - done.
  - apply lookup_singleton_eq.
Qed.

(** The code of two hours. *)
Lemma classify_hours_as_short_witness :
  classify (Some "v1") {[ "v1" := hoursCode "2" "" ]} = ("Short", shorts).
Proof.
  apply classify_hours_as_short. split; [done | reflexivity].
Defined.

(** C3, as stated, fails: with no time range, a playlist holds an entry of
    1 March, an entry whose date is no date and an entry of 9 March.  Added
    or refreshed, the channel leaves the feed in that order, the item of
    1 March before the item of 9 March. *)
Lemma merge_with_undated_item_unsorted :
  let added :=
    st_videos (add undatedUpstream "KEY" allTime searchResultDelta
                 {| st_channels := []; st_videos := [] |}).1.2 in
  let refreshed :=
    st_videos (refresh undatedUpstream "KEY" allTime
                 {| st_channels := [channelDelta]; st_videos := [] |}).1.2 in
  added = [itemOld; itemUndated; itemNew]
  /\ refreshed = [itemOld; itemUndated; itemNew]
  /\ mergeVideos [] [itemOld; itemUndated; itemNew] = [itemOld; itemUndated; itemNew]
  /\ Date_getTime (item_publishedAt itemOld) = Some 1709287200000
  /\ Date_getTime (item_publishedAt itemUndated) = None
  /\ Date_getTime (item_publishedAt itemNew) = Some 1709978400000
  /\ ~ notOlder itemOld itemNew
  /\ ~ StronglySorted notOlder added
  /\ ~ StronglySorted notOlder refreshed.
Proof.
  assert (~ StronglySorted notOlder [itemOld; itemUndated; itemNew]) as Hunsorted.
  { intros Hsorted. apply StronglySorted_inv in Hsorted as [_ Hfirst].
    apply Forall_cons in Hfirst as [Hundated _]. vm_compute in Hundated. exact Hundated. }
  assert (st_videos (add undatedUpstream "KEY" allTime searchResultDelta
                       {| st_channels := []; st_videos := [] |}).1.2
          = [itemOld; itemUndated; itemNew]) as Hadded by (vm_compute; reflexivity).
  assert (st_videos (refresh undatedUpstream "KEY" allTime
                       {| st_channels := [channelDelta]; st_videos := [] |}).1.2
          = [itemOld; itemUndated; itemNew]) as Hrefreshed by (vm_compute; reflexivity).
  cbv zeta. rewrite Hadded, Hrefreshed. split_and!.
  - reflexivity.
  - reflexivity.
  - vm_compute. reflexivity.
  - vm_compute. reflexivity.
  - vm_compute. reflexivity.
  - vm_compute. reflexivity.
  - vm_compute. intros Hle. by apply Hle.
  - exact Hunsorted.
  - exact Hunsorted.
Qed.

(** C3, amended.  Merge sort invariant, for published dates that are valid.
    The feed [addChannel]'s merge returns, and the feed a full refresh puts
    in place, list their items from the newest published to the oldest,
    whatever the order the channels or the items came in, the dates of the
    items being valid.  A run of [addChannel] leaves the feed untouched or
    merged and so ordered; a refresh over a registry, with a key, leaves it
    so ordered.  The sort only rearranges what the merge kept. *)
Theorem merged_feed_sorted `{JsDate} (up : Upstream) (apiKey : string)
    (fetchSettings : FetchSettings) :
  (forall prev newVideos,
     Forall validDate (mergeVideos prev newVideos) ->
     StronglySorted notOlder (mergeVideos prev newVideos))
  /\ (forall channel st r st' reqs,
        add up apiKey fetchSettings channel st = (r, st', reqs) ->
        Forall validDate (st_videos st') ->
        st_videos st' = st_videos st
        \/ (exists newVideos, newVideos <> []
              /\ st_videos st' = mergeVideos (st_videos st) newVideos)
           /\ StronglySorted notOlder (st_videos st'))
  /\ (forall st r st' reqs,
        st_channels st <> [] -> apiKey <> "" ->
        refresh up apiKey fetchSettings st = (r, st', reqs) ->
        Forall validDate (st_videos st') ->
        StronglySorted notOlder (st_videos st'))
  /\ (forall prev newVideos,
        mergeVideos prev newVideos ≡ₚ JsMap.values (mergeMap prev newVideos)).
Proof.
  assert (forall l, Forall validDate (Array_sort compareByPublishedDesc l) ->
            StronglySorted notOlder (Array_sort compareByPublishedDesc l)) as Hsort.
  { intros l Hvalid. apply Array_sort_sorted.
    by rewrite <- (Array_sort_Permutation compareByPublishedDesc l). }
  split_and!.
  - intros prev newVideos. apply Hsort.
  - intros channel st r st' reqs Hadd Hvalid.
    destruct (add_outcome up apiKey fetchSettings channel st)
      as (st0 & reqs0 & Heq & Hdup & Hnew).
    rewrite Hadd in Heq. injection Heq as -> <- <-.
    destruct (decide (sr_channelId channel ∈ ch_id <$> st_channels st)) as [Hin|Hout].
    + left. by rewrite (Hdup Hin).
    + destruct (Hnew Hout) as [_ [Hsame | (newVideos & Hne & Hmerge)]]; [by left |].
      right. split; [by exists newVideos |].
      rewrite Hmerge in *. by apply Hsort.
  - intros st r st' reqs Hchannels Hkey Hrefresh Hvalid.
    rewrite refresh_replaces in Hrefresh by done. injection Hrefresh as <- <- <-.
    simpl in *. by apply Hsort.
  - intros prev newVideos. apply Array_sort_Permutation.
Qed.

(** Items published on the 1st and the 5th, merged with a new state of the
    first: the feed lists the 5th before the 1st. *)
Lemma merged_feed_sorted_witness :
  StronglySorted notOlder (mergeVideos [itemB1 "Opening (draft)"; itemB2] [itemB1 "Opening"]).
Proof.
  apply (merged_feed_sorted sampleUpstream "KEY" sampleSettings).
  apply (bool_decide_unpack _). vm_compute. exact I.
Defined.






(** C6, as stated, fails: of the two batches 51 ids need, only the first is
    requested when it throws, and the lookup ends with the error. *)
Lemma batch_throw_ends_lookup :
  ceilDiv (length ids51) batchSize = 2%nat
  /\ (fetchDurations throwingUpstream ids51 noEffects).1 = Thrown NetworkError
  /\ requests (fetchDurations throwingUpstream ids51 noEffects).2
     = [GetVideos (take 50 ids51)]
  /\ length (requests (fetchDurations throwingUpstream ids51 noEffects).2)
     <> ceilDiv (length ids51) batchSize.
Proof. split_and!; vm_compute; (reflexivity || discriminate). Qed.

(** C6, amended.  The ids are cut, in order, into the ceiling of N/50 batches
    of at most 50.  When no request throws, one request goes out for each
    batch and the body of each answer is stored in turn; a body without
    [items] (an error status) stores nothing and leaves what the other
    batches stored.  When a request throws, the lookup ends with that error:
    the batches after it are not requested and no durations are returned. *)
Theorem batched_duration_lookup (up : Upstream) (videoIds : list string) (fx : Effects) :
  let bs := batches videoIds in
  let sent := length (requests fx) in
  length bs = ceilDiv (length videoIds) batchSize
  /\ (length videoIds <= batchSize * length bs < length videoIds + batchSize)%nat
  /\ concat bs = videoIds
  /\ Forall (fun batch => (length batch <= batchSize)%nat) bs
  /\ (forall datas,
        imap (fun j batch => videosReply up (sent + j) batch) bs = Returned <$> datas ->
        fetchDurations up videoIds fx
        = (Returned (foldl (fun acc videoData => storeDurations videoData acc) ∅ datas),
           sendAll (GetVideos <$> bs) fx))
  /\ (forall videoDurations, storeDurations None videoDurations = videoDurations)
  /\ (forall answered batch rest datas e,
        bs = (answered ++ batch :: rest)%list ->
        imap (fun j b => videosReply up (sent + j) b) answered = Returned <$> datas ->
        videosReply up (sent + length answered) batch = Thrown e ->
        fetchDurations up videoIds fx
        = (Thrown e, sendAll (GetVideos <$> (answered ++ [batch])%list) fx)).
Proof.
  intros bs sent.
  pose proof (ceilDiv_batchSize_bounds (length videoIds)) as Hbounds.
  rewrite <- batches_length in Hbounds. fold bs in Hbounds. split_and!.
  - apply batches_length.
  - apply Hbounds.
  - apply Hbounds.
  - apply batches_concat.
  - apply batches_bounded.
  - intros datas Hreplies. rewrite fetchDurations_batches.
    by apply fetchBatches_returned.
  - done.
  - intros answered batch rest datas e Hbs Hreplies Hthrown.
    rewrite fetchDurations_batches. fold bs. rewrite Hbs.
    by apply (fetchBatches_thrown up answered batch rest ∅ fx datas).
Qed.

(** 51 ids, the first batch answered by an error body: two requests go out
    and the duration of the 51st id is returned. *)
Lemma batched_duration_lookup_witness :
  fetchDurations refusingUpstream ids51 noEffects
  = (Returned (foldl (fun acc videoData => storeDurations videoData acc) ∅
                 [None; Some [ {| vd_id := "v50"; vd_duration := "PT30S" |} ]]),
     sendAll (GetVideos <$> batches ids51) noEffects).
Proof.
  apply (batched_duration_lookup refusingUpstream ids51 noEffects).
  vm_compute. reflexivity.
Defined.

(** C7. Cache staleness.  Reading returns the stored feed when its timestamp
    is less than 24 hours old and the empty feed when it is 24 hours old or
    older, or when nothing is stored.  Writing stores a feed that is not
    empty under the time of the write, and stores nothing for the empty
    feed: what a failed refresh leaves readable is what was readable before
    it. *)
Theorem feed_cache_staleness (today : Z) (data : CachedVideos)
    (videos : list FeedItem) (saved : option CachedVideos) :
  (today - cached_timestamp data < msPerDay ->
     loadCachedVideos today (Some data) = cached_videos data)
  /\ (msPerDay <= today - cached_timestamp data ->
      loadCachedVideos today (Some data) = [])
  /\ loadCachedVideos today None = []
  /\ (videos <> [] ->
      cacheVideos today videos saved
      = Some {| cached_videos := videos; cached_timestamp := today |})
  /\ cacheVideos today [] saved = saved
  /\ (forall later, videos <> [] -> later - today < msPerDay ->
        loadCachedVideos later (cacheVideos today videos saved) = videos)
  /\ (forall later,
        loadCachedVideos later (cacheVideos today [] saved) = loadCachedVideos later saved).
Proof.
  unfold msPerDay. split_and!.
  - intros Hfresh. unfold loadCachedVideos. rewrite decide_True; [done | lia].
  - intros Hstale. unfold loadCachedVideos. rewrite decide_False; [done | lia].
  - done.
  - intros Hne. unfold cacheVideos. rewrite decide_True; [done |].
    destruct videos; [done | simpl; lia].
  - done.
  - intros later Hne Hfresh. unfold cacheVideos. rewrite decide_True.
    + unfold loadCachedVideos. simpl. rewrite decide_True; [done | lia].
    + destruct videos; [done | simpl; lia].
  - done.
Qed.

(** A feed written at midnight is read back 23 hours later. *)
Lemma feed_cache_staleness_witness :
  loadCachedVideos (sampleToday + 23 * 60 * 60 * 1000)
    (cacheVideos sampleToday [itemB2] None) = [itemB2].
Proof.
  apply (feed_cache_staleness sampleToday
           {| cached_videos := []; cached_timestamp := 0 |} [itemB2] None).
  - discriminate.
  - vm_compute. reflexivity.
Defined.




(** C9, as stated, fails: adding channel B to a registry that holds it ends
    without any error, the registry and the feed as they were. *)
Lemma add_existing_channel_no_error :
  (add sampleUpstream "KEY" sampleSettings searchResultBeta stateAB).1.1 = Returned tt
  /\ (forall e, (add sampleUpstream "KEY" sampleSettings searchResultBeta stateAB).1.1
                <> Thrown e)
  /\ (add sampleUpstream "KEY" sampleSettings searchResultBeta stateAB).1.2 = stateAB.
Proof. split_and!; [vm_compute; reflexivity | intros e; vm_compute; discriminate | vm_compute; reflexivity]. Qed.

(** C9, amended.  [addChannel] raises no error.  For a channel whose id the
    registry holds it changes neither the registry nor the feed; otherwise it
    appends one entry with that id, the name and thumbnail of the search
    result, and the preferences long-form on, shorts on, community off.  A
    registry with at most one entry per id has at most one per id after. *)
Theorem add_channel_registry `{JsDate} (up : Upstream) (apiKey : string)
    (fetchSettings : FetchSettings) (channel : SearchResult) (st : AppState) :
  let channelId := sr_channelId channel in
  let st' := (add up apiKey fetchSettings channel st).1.2 in
  (add up apiKey fetchSettings channel st).1.1 = Returned tt
  /\ (channelId ∈ (ch_id <$> st_channels st) -> st' = st)
  /\ (channelId ∉ (ch_id <$> st_channels st) ->
      exists c, st_channels st' = (st_channels st ++ [c])%list
        /\ ch_id c = channelId /\ ch_name c = sr_title channel
        /\ ch_thumbnail c = getSnippetThumbnail channel
        /\ ch_contentTypes c
           = {| ct_longForm := true; ct_shorts := true; ct_community := false |})
  /\ (NoDup (ch_id <$> st_channels st) -> NoDup (ch_id <$> st_channels st')).
Proof.
  intros channelId st'.
  destruct (add_outcome up apiKey fetchSettings channel st)
    as (st0 & reqs & Heq & Hdup & Hnew).
  subst st'. rewrite Heq. simpl. fold channelId in Hdup, Hnew. split_and!.
  - done.
  - exact Hdup.
  - intros Habsent. by destruct (Hnew Habsent) as [Hc _].
  - intros Hnd. destruct (decide (channelId ∈ ch_id <$> st_channels st)) as [Hin|Hout].
    + by rewrite (Hdup Hin).
    + destruct (Hnew Hout) as [(c & -> & Hid & _) _].
      rewrite fmap_app. simpl. rewrite Hid. apply NoDup_app.
      split_and!; [done | | apply NoDup_singleton].
      intros id Hin ->%list_elem_of_singleton. done.
Qed.

(** A channel the registry does not hold is appended with the default
    preferences. *)
Lemma add_channel_registry_witness :
  exists c,
    st_channels (add sampleUpstream "KEY" sampleSettings searchResultDelta stateAB).1.2
    = ([channelA; channelB] ++ [c])%list
    /\ ch_id c = "UCdelta" /\ ch_name c = "Delta"
    /\ ch_thumbnail c = getSnippetThumbnail searchResultDelta
    /\ ch_contentTypes c
       = {| ct_longForm := true; ct_shorts := true; ct_community := false |}.
Proof.
  apply (add_channel_registry sampleUpstream "KEY" sampleSettings searchResultDelta stateAB).
  apply (bool_decide_unpack _). vm_compute. exact I.
Defined.

(** C10, as stated, fails: a post that has the native id [act-1] and a text
    gets the text as its id. *)
Lemma community_id_prefers_text :
  act_id postC1 = "act-1"
  /\ communityPostId postC1 = "Live tonight!"
  /\ communityPostId postC1 <> act_id postC1
  /\ item_id <$> communityPost channelC sampleSettings
                   (cutoffDate sampleSettings sampleToday) postC1
     = Some "Live tonight!".
Proof. split_and!; vm_compute; (reflexivity || discriminate). Qed.

(** C10, amended.  The id of a community post is the first 50 characters of
    its text whenever it has a text that is not empty, whether or not it
    has a native id; the native id is used only when the text is absent or
    empty.  The feed item made of the post carries that id and the kind
    community. *)
Theorem community_post_id `{JsDate} (item : Activity) :
  (forall text, act_description item = Some text -> text <> "" ->
     communityPostId item = substring 0 50 text)
  /\ (act_description item = None \/ act_description item = Some "" ->
      communityPostId item = act_id item)
  /\ (forall channel fetchSettings cutoff post,
        communityPost channel fetchSettings cutoff item = Some post ->
        item_id post = communityPostId item /\ item_type post = community
        /\ act_type item = "community").
Proof.
  unfold communityPostId, orElse, truthy. split_and!.
  - intros text -> Hne. simpl. destruct text; [done |]. simpl. done.
  - intros [-> | ->]; done.
  - intros channel fetchSettings cutoff post. unfold communityPost.
    case_decide as Htype; [| done]. destruct (postInRange _ _ _); [| done].
    intros [= <-]. done.
Qed.

(** The id of a post of 61 characters is its first 50. *)
Lemma community_post_id_witness :
  communityPostId longPost = "01234567890123456789012345678901234567890123456789".
Proof.
  apply (proj1 (community_post_id longPost)
           "0123456789012345678901234567890123456789012345678901234567890").
  - reflexivity.
  - discriminate.
Defined.

(** * Further properties of the handlers *)

(** ** The insertion-ordered set and the watched videos *)

Section JsSetFacts.
Implicit Types (s : JsSet.t) (l : list string) (x y : string).

Lemma JsSet_add_NoDup x s : NoDup s -> NoDup (JsSet.add x s).
Proof.
  intros Hnd. unfold JsSet.add. case_decide; [done |].
  apply NoDup_app. split_and!; [done | set_solver | apply NoDup_singleton].
Qed.

Lemma JsSet_elem_of_add x y s : y ∈ JsSet.add x s <-> y = x \/ y ∈ s.
Proof. unfold JsSet.add. case_decide; set_solver. Qed.

Lemma JsSet_foldl_add l : forall s,
  NoDup s ->
  NoDup (foldl (fun acc x => JsSet.add x acc) s l)
  /\ (forall y, y ∈ foldl (fun acc x => JsSet.add x acc) s l <-> y ∈ s \/ y ∈ l)
  /\ (NoDup (s ++ l) -> foldl (fun acc x => JsSet.add x acc) s l = (s ++ l)%list).
Proof.
  induction l as [|x l IH]; intros s Hnd; simpl.
  - split_and!; [done | set_solver | by rewrite app_nil_r].
  - destruct (IH (JsSet.add x s) (JsSet_add_NoDup x s Hnd)) as (Hnd' & Hin & Heq).
    split_and!; [done | |].
    + intros y. rewrite Hin, JsSet_elem_of_add. set_solver.
    + intros Hall. assert (x ∉ s) as Hx.
      { apply NoDup_app in Hall as (_ & Hdisj & _). intros Hxs.
        apply (Hdisj x Hxs). set_solver. }
      assert (JsSet.add x s = (s ++ [x])%list) as Hadd
        by (unfold JsSet.add; by rewrite decide_False).
      rewrite Hadd in *. rewrite Heq; [by rewrite <- app_assoc |].
      by rewrite <- app_assoc.
Qed.

Lemma JsSet_fromArray_NoDup l : NoDup (JsSet.fromArray l).
Proof. apply (JsSet_foldl_add l []). constructor. Qed.

Lemma JsSet_elem_of_fromArray l y : y ∈ JsSet.fromArray l <-> y ∈ l.
Proof.
  destruct (JsSet_foldl_add l [] (NoDup_nil_2)) as (_ & Hin & _).
  unfold JsSet.fromArray. rewrite Hin. set_solver.
Qed.

Lemma JsSet_fromArray_id l : NoDup l -> JsSet.fromArray l = l.
Proof.
  intros Hnd. destruct (JsSet_foldl_add l [] (NoDup_nil_2)) as (_ & _ & Heq).
  by apply Heq.
Qed.

Lemma JsSet_delete_NoDup x s : NoDup s -> NoDup (JsSet.delete x s).
Proof. apply NoDup_filter. Qed.

Lemma JsSet_elem_of_delete x y s : y ∈ JsSet.delete x s <-> y <> x /\ y ∈ s.
Proof. unfold JsSet.delete. by rewrite list_elem_of_filter. Qed.

Lemma JsSet_delete_absent x s : x ∉ s -> JsSet.delete x s = s.
Proof.
  intros Hx. unfold JsSet.delete. induction s as [|y s IH]; [done |].
  rewrite (filter_cons_True (fun z => z <> x)) by set_solver.
  f_equal. apply IH. set_solver.
Qed.

Lemma toggleWatchedVideo_NoDup x s : NoDup (toggleWatchedVideo x s).
Proof.
  unfold toggleWatchedVideo, JsSet.toArray. destruct (JsSet.has _ _).
  - apply JsSet_delete_NoDup, JsSet_fromArray_NoDup.
  - apply JsSet_add_NoDup, JsSet_fromArray_NoDup.
Qed.

Lemma elem_of_toggleWatchedVideo x y s :
  y ∈ toggleWatchedVideo x s <-> (y = x /\ x ∉ s) \/ (y <> x /\ y ∈ s).
Proof.
  unfold toggleWatchedVideo, JsSet.toArray, JsSet.has.
  destruct (bool_decide _) eqn:Hhas.
  - apply bool_decide_eq_true in Hhas. rewrite JsSet_elem_of_fromArray in Hhas.
    rewrite JsSet_elem_of_delete, JsSet_elem_of_fromArray. naive_solver.
  - apply bool_decide_eq_false in Hhas. rewrite JsSet_elem_of_fromArray in Hhas.
    rewrite JsSet_elem_of_add, JsSet_elem_of_fromArray.
    destruct (decide (y = x)); naive_solver.
Qed.

Lemma toggleWatchedVideo_absent x s :
  NoDup s -> x ∉ s -> toggleWatchedVideo x s = (s ++ [x])%list.
Proof.
  intros Hnd Hx. unfold toggleWatchedVideo, JsSet.toArray, JsSet.has.
  rewrite JsSet_fromArray_id by done.
  rewrite bool_decide_eq_false_2 by done. unfold JsSet.add. by rewrite decide_False.
Qed.

Lemma toggleWatchedVideo_present x s :
  NoDup s -> x ∈ s -> toggleWatchedVideo x s = filter (fun y => y <> x) s.
Proof.
  intros Hnd Hx. unfold toggleWatchedVideo, JsSet.toArray, JsSet.has.
  rewrite JsSet_fromArray_id by done. by rewrite bool_decide_eq_true_2.
Qed.

End JsSetFacts.

(** X1. Toggling a video flips whether it is watched and changes that of no
    other video; the set holds each id once. *)
Theorem toggleWatchedVideo_flips (videoId y : string) (prev : JsSet.t) :
  JsSet.has y (toggleWatchedVideo videoId prev)
  = (if decide (y = videoId) then negb (JsSet.has videoId prev) else JsSet.has y prev)
  /\ NoDup (toggleWatchedVideo videoId prev).
Proof.
  split; [| apply toggleWatchedVideo_NoDup].
  unfold JsSet.has. apply eq_true_iff_eq.
  rewrite bool_decide_eq_true, elem_of_toggleWatchedVideo.
  case_decide as Hy.
  - subst y. rewrite negb_true_iff, bool_decide_eq_false. naive_solver.
  - rewrite bool_decide_eq_true. naive_solver.
Qed.

(** X2. Toggling a video twice leaves every video as watched or unwatched as
    before.  The set itself is the same when the video was not in it; a video
    that was in it comes back as the newest entry. *)
Theorem toggleWatchedVideo_twice (videoId : string) (prev : JsSet.t) :
  (forall y, JsSet.has y (toggleWatchedVideo videoId (toggleWatchedVideo videoId prev))
             = JsSet.has y prev)
  /\ (NoDup prev -> videoId ∉ prev ->
      toggleWatchedVideo videoId (toggleWatchedVideo videoId prev) = prev)
  /\ (NoDup prev -> videoId ∈ prev ->
      toggleWatchedVideo videoId (toggleWatchedVideo videoId prev)
      = (filter (fun y => y <> videoId) prev ++ [videoId])%list).
Proof.
  split_and!.
  - intros y. unfold JsSet.has. apply eq_true_iff_eq.
    rewrite !bool_decide_eq_true, !elem_of_toggleWatchedVideo.
    destruct (decide (y = videoId)) as [->|Hy];
      destruct (decide (videoId ∈ prev)); intuition congruence.
  - intros Hnd Hx. rewrite (toggleWatchedVideo_absent videoId prev) by done.
    rewrite toggleWatchedVideo_present.
    + rewrite (filter_app (fun y => y <> videoId)).
      rewrite (filter_cons_False (fun y => y <> videoId)) by (intros Hne; by apply Hne).
      rewrite filter_nil, app_nil_r. by apply JsSet_delete_absent.
    + apply NoDup_app. split_and!; [done | set_solver | apply NoDup_singleton].
    + set_solver.
  - intros Hnd Hx. rewrite (toggleWatchedVideo_present videoId prev) by done.
    apply toggleWatchedVideo_absent; [by apply NoDup_filter |].
    rewrite list_elem_of_filter. naive_solver.
Qed.

Lemma toggleWatchedVideo_twice_witness :
  toggleWatchedVideo "b1" (toggleWatchedVideo "b1" ["b2"; "b3"]) = ["b2"; "b3"].
Proof.
  apply (toggleWatchedVideo_twice "b1" ["b2"; "b3"]).
  - apply (bool_decide_unpack _). vm_compute. exact I.
  - apply (bool_decide_unpack _). vm_compute. exact I.
Defined.

(** X3. The watched set survives a reload: what is read back from the array
    written for a set that was loaded, or toggled, is that set, in the same
    order; with nothing stored the set starts empty. *)
Theorem watchedVideos_reload (saved : option (list string)) (videoId : string) :
  let watched := loadWatchedVideos saved in
  loadWatchedVideos (saveWatchedVideos watched) = watched
  /\ loadWatchedVideos (saveWatchedVideos (toggleWatchedVideo videoId watched))
     = toggleWatchedVideo videoId watched
  /\ loadWatchedVideos None = []
  /\ (forall ids y, JsSet.has y (loadWatchedVideos (Some ids)) = bool_decide (y ∈ ids)).
Proof.
  intros watched. split_and!.
  - apply JsSet_fromArray_id. subst watched. destruct saved; apply JsSet_fromArray_NoDup.
  - apply JsSet_fromArray_id, toggleWatchedVideo_NoDup.
  - done.
  - intros ids y. unfold JsSet.has. simpl. apply bool_decide_ext.
    apply JsSet_elem_of_fromArray.
Qed.

(** ** Registry edits *)

(** X4. Removing a channel takes out of the registry every entry with that
    id and nothing else: the other entries stay, in their order, and with no
    entry of that id the registry is unchanged.  The selection is cleared
    exactly when it was the removed channel. *)
Theorem removeChannel_removes (channels : list Channel)
    (selectedChannel : option string) (channelId : string) :
  let channels' := (removeChannel channels selectedChannel channelId).1 in
  let selected' := (removeChannel channels selectedChannel channelId).2 in
  (channelId ∉ (ch_id <$> channels'))
  /\ (forall c, ch_id c <> channelId -> (c ∈ channels' <-> c ∈ channels))
  /\ sublist channels' channels
  /\ (channelId ∉ (ch_id <$> channels) -> channels' = channels)
  /\ (NoDup (ch_id <$> channels) -> NoDup (ch_id <$> channels'))
  /\ (selectedChannel = Some channelId -> selected' = None)
  /\ (selectedChannel <> Some channelId -> selected' = selectedChannel).
Proof.
  intros channels' selected'. subst channels' selected'. simpl. split_and!.
  - rewrite list_elem_of_fmap. intros (c & Hid & Hc).
    apply list_elem_of_filter in Hc as [Hne _]. by apply Hne.
  - intros c Hne. rewrite list_elem_of_filter. tauto.
  - apply sublist_filter.
  - intros Habsent. induction channels as [|c channels IH]; [done |].
    rewrite fmap_cons, not_elem_of_cons in Habsent. destruct Habsent as [Hc Hrest].
    rewrite (filter_cons_True (fun c => ch_id c <> channelId)) by done.
    f_equal. by apply IH.
  - intros Hnd. eapply sublist_NoDup; [exact Hnd |].
    apply fmap_sublist. apply (sublist_filter (fun c => ch_id c <> channelId)).
  - intros ->. by rewrite decide_True.
  - intros Hne. by rewrite decide_False.
Qed.

Lemma removeChannel_removes_witness :
  (removeChannel [channelA; channelB] (Some "UCbeta") "UCgamma").1 = [channelA; channelB].
Proof.
  apply (removeChannel_removes [channelA; channelB] (Some "UCbeta") "UCgamma").
  apply (bool_decide_unpack _). vm_compute. exact I.
Defined.

Section RegistryFacts.
Context `{JsDate} (up : Upstream).

Lemma filter_other_id (channels : list Channel) (channelId : string) :
  channelId ∉ (ch_id <$> channels) ->
  filter (fun c => ch_id c <> channelId) channels = channels.
Proof.
  intros Habsent. induction channels as [|c channels IH]; [done |].
  rewrite fmap_cons, not_elem_of_cons in Habsent. destruct Habsent as [Hc Hrest].
  rewrite (filter_cons_True (fun c => ch_id c <> channelId)) by done.
  f_equal. by apply IH.
Qed.

End RegistryFacts.

(** X5. Removing a channel that was just added gives back the registry as it
    was before the addition. *)
Theorem removeChannel_after_add `{JsDate} (up : Upstream) (apiKey : string)
    (fetchSettings : FetchSettings) (channel : SearchResult) (st : AppState)
    (selectedChannel : option string) :
  sr_channelId channel ∉ (ch_id <$> st_channels st) ->
  (removeChannel (st_channels (add up apiKey fetchSettings channel st).1.2)
     selectedChannel (sr_channelId channel)).1
  = st_channels st.
Proof.
  intros Habsent.
  destruct (add_outcome up apiKey fetchSettings channel st)
    as (st' & reqs & -> & _ & Hnew).
  destruct (Hnew Habsent) as [(c & Hchannels & Hid & _) _].
  simpl. rewrite Hchannels.
  rewrite (filter_app (fun c => ch_id c <> sr_channelId channel)).
  rewrite (filter_cons_False (fun c => ch_id c <> sr_channelId channel))
    by (intros Hne; by apply Hne).
  rewrite filter_nil, app_nil_r. by apply filter_other_id.
Qed.

Lemma removeChannel_after_add_witness :
  (removeChannel
     (st_channels (add sampleUpstream "KEY" sampleSettings searchResultDelta stateAB).1.2)
     None "UCdelta").1
  = [channelA; channelB].
Proof.
  apply (removeChannel_after_add sampleUpstream "KEY" sampleSettings searchResultDelta
           stateAB None).
  apply (bool_decide_unpack _). vm_compute. exact I.
Defined.

(** X6. Changing a preference keeps the ids, the order and every other field
    of the registry: the entries of the given id get the given value for the
    given content type and keep their two other preferences; the other
    entries are untouched, and with no entry of that id nothing changes. *)
Theorem updateContentType_sets (channels : list Channel) (channelId : string)
    (contentType : ContentType) (enabled : bool) :
  let channels' := updateContentType channels channelId contentType enabled in
  ch_id <$> channels' = ch_id <$> channels
  /\ ch_name <$> channels' = ch_name <$> channels
  /\ ch_thumbnail <$> channels' = ch_thumbnail <$> channels
  /\ ch_uploadsPlaylistId <$> channels' = ch_uploadsPlaylistId <$> channels
  /\ (forall i c, channels !! i = Some c ->
        exists c', channels' !! i = Some c'
          /\ (ch_id c <> channelId -> c' = c)
          /\ (ch_id c = channelId ->
              getContentType (ch_contentTypes c') contentType = enabled
              /\ forall other, other <> contentType ->
                   getContentType (ch_contentTypes c') other
                   = getContentType (ch_contentTypes c) other))
  /\ (channelId ∉ (ch_id <$> channels) -> channels' = channels).
Proof.
  intros channels'. subst channels'. unfold updateContentType.
  split_and!.
  - rewrite <- list_fmap_compose. apply list_fmap_ext. intros i c _. simpl.
    by case_decide.
  - rewrite <- list_fmap_compose. apply list_fmap_ext. intros i c _. simpl.
    by case_decide.
  - rewrite <- list_fmap_compose. apply list_fmap_ext. intros i c _. simpl.
    by case_decide.
  - rewrite <- list_fmap_compose. apply list_fmap_ext. intros i c _. simpl.
    by case_decide.
  - intros i c Hc. rewrite list_lookup_fmap, Hc. simpl. eexists. split; [done |].
    case_decide as Hid; split; try done.
    intros _. simpl. split.
    + by destruct contentType.
    + intros other Hother. by destruct contentType, other.
  - intros Habsent. rewrite <- (list_fmap_id channels) at 2. apply list_fmap_ext.
    intros i c Hc. rewrite decide_False; [done |].
    intros Hid. apply Habsent, list_elem_of_fmap. exists c.
    split; [done |]. by eapply list_elem_of_lookup_2.
Qed.

Lemma updateContentType_sets_witness :
  updateContentType [channelA; channelB] "UCgamma" community true = [channelA; channelB].
Proof.
  apply (updateContentType_sets [channelA; channelB] "UCgamma" community true).
  apply (bool_decide_unpack _). vm_compute. exact I.
Defined.

(** X7. Preference changes compose as assignments: of two changes of the same
    content type of the same channel the later one wins, and two changes of
    different channels or of different content types can be made in either
    order. *)
Theorem updateContentType_composes (channels : list Channel)
    (id1 id2 : string) (type1 type2 : ContentType) (e1 e2 : bool) :
  updateContentType (updateContentType channels id1 type1 e1) id1 type1 e2
  = updateContentType channels id1 type1 e2
  /\ (id1 <> id2 \/ type1 <> type2 ->
      updateContentType (updateContentType channels id1 type1 e1) id2 type2 e2
      = updateContentType (updateContentType channels id2 type2 e2) id1 type1 e1).
Proof.
  unfold updateContentType. split.
  - rewrite <- list_fmap_compose. apply list_fmap_ext. intros i c _. simpl.
    destruct (decide (ch_id c = id1)) as [Hid|Hid]; simpl.
    + rewrite decide_True by done. f_equal. by destruct type1.
    + by rewrite decide_False.
  - intros Hdiff. rewrite <- !list_fmap_compose. apply list_fmap_ext.
    intros i c _. simpl.
    repeat (case_decide; simpl); try congruence; try done.
    all: f_equal; destruct Hdiff as [Hne|Hne]; [congruence |];
      by destruct type1, type2.
Qed.

Lemma updateContentType_composes_witness :
  updateContentType (updateContentType [channelA; channelB] "UCalpha" shorts false)
    "UCbeta" community true
  = updateContentType (updateContentType [channelA; channelB] "UCbeta" community true)
      "UCalpha" shorts false.
Proof.
  apply (updateContentType_composes [channelA; channelB] "UCalpha" "UCbeta"
           shorts community false true).
  left. discriminate.
Defined.

(** ** The grouped view *)

Section ViewFacts.
Context `{JsDate}.
Implicit Types (channels : list Channel) (videos vids : list FeedItem).

Lemma elem_of_getVideosByChannel channels videos channel vids :
  (channel, vids) ∈ getVideosByChannel channels videos
  <-> channel ∈ channels
      /\ vids = filter (fun v => item_channelId v = ch_id channel) videos
      /\ vids <> [].
Proof.
  unfold getVideosByChannel. rewrite list_elem_of_omap. split.
  - intros (c & Hc & Hgroup). case_decide as Hlen; [| done].
    injection Hgroup as -> <-. split_and!; [done | done |].
    intros Hnil. rewrite Hnil in Hlen. simpl in Hlen. lia.
  - intros (Hc & -> & Hne). exists channel. split; [done |].
    rewrite decide_True; [done |].
    destruct (filter _ videos); [done | simpl; lia].
Qed.

Lemma getVideosByChannel_cons channel channels videos :
  getVideosByChannel (channel :: channels) videos
  = (match filter (fun v => item_channelId v = ch_id channel) videos with
     | [] => []
     | v :: vs => [(channel, v :: vs)]
     end ++ getVideosByChannel channels videos)%list.
Proof.
  unfold getVideosByChannel. simpl.
  by destruct (filter _ videos) as [|v vs].
Qed.

Lemma StronglySorted_filter {A} (R : relation A) (P : A -> Prop)
    `{forall x, Decision (P x)} (l : list A) :
  StronglySorted R l -> StronglySorted R (filter P l).
Proof.
  induction 1 as [|x l Hl IH Hx]; [constructor |].
  rewrite filter_cons. case_decide; [| done].
  constructor; [done |]. rewrite Forall_forall in *. intros y Hy.
  apply Hx. by apply list_elem_of_filter in Hy as [_ Hy].
Qed.

Lemma filter_or_disjoint {A} (P Q : A -> Prop)
    `{forall x, Decision (P x)} `{forall x, Decision (Q x)} (l : list A) :
  (forall x, P x -> Q x -> False) ->
  filter (fun x => P x \/ Q x) l ≡ₚ (filter P l ++ filter Q l)%list.
Proof.
  intros Hdisj. induction l as [|x l IH]; [done |].
  rewrite !filter_cons.
  destruct (decide (P x)) as [HP|HP]; destruct (decide (Q x)) as [HQ|HQ].
  - destruct (Hdisj x HP HQ).
  - rewrite decide_True by tauto. simpl. by rewrite IH.
  - rewrite decide_True by tauto. rewrite IH. apply Permutation_middle.
  - rewrite decide_False by tauto. done.
Qed.

End ViewFacts.

(** X8. The grouped view lists the followed channels that have items, in the
    order of the registry.  A group holds exactly the feed items of its
    channel, is never empty, and keeps the order of the feed, so a feed that
    runs from the newest to the oldest gives groups that do. *)
Theorem getVideosByChannel_groups `{JsDate} (channels : list Channel)
    (videos : list FeedItem) :
  sublist (getVideosByChannel channels videos).*1 channels
  /\ (forall channel vids, (channel, vids) ∈ getVideosByChannel channels videos ->
        channel ∈ channels /\ vids <> [] /\ sublist vids videos
        /\ (forall v, v ∈ vids <-> v ∈ videos /\ item_channelId v = ch_id channel)
        /\ (StronglySorted notOlder videos -> StronglySorted notOlder vids))
  /\ (forall channel v, channel ∈ channels -> v ∈ videos ->
        item_channelId v = ch_id channel ->
        exists vids, (channel, vids) ∈ getVideosByChannel channels videos /\ v ∈ vids).
Proof.
  split_and!.
  - induction channels as [|c channels IH]; [done |].
    rewrite getVideosByChannel_cons.
    destruct (filter _ videos); simpl; [by apply sublist_cons | by apply sublist_skip].
  - intros channel vids (Hc & -> & Hne)%elem_of_getVideosByChannel.
    split_and!; [done | done | apply sublist_filter | |].
    + intros v. rewrite list_elem_of_filter. tauto.
    + apply StronglySorted_filter.
  - intros channel v Hc Hv Hid. eexists. split.
    + apply elem_of_getVideosByChannel. split_and!; [done | done |].
      intros Hnil.
      assert (v ∈ filter (fun v => item_channelId v = ch_id channel) videos) as Hin
        by (apply list_elem_of_filter; done).
      rewrite Hnil in Hin. by apply elem_of_nil in Hin.
    + by apply list_elem_of_filter.
Qed.

Lemma getVideosByChannel_groups_witness :
  exists vids, (channelB, vids) ∈ getVideosByChannel [channelA; channelB]
                                   [itemB2; itemB3; itemB1 "Opening"]
               /\ itemB3 ∈ vids.
Proof.
  apply (getVideosByChannel_groups [channelA; channelB] [itemB2; itemB3; itemB1 "Opening"]).
  - apply (bool_decide_unpack _). vm_compute. exact I.
  - apply (bool_decide_unpack _). vm_compute. exact I.
  - reflexivity.
Defined.

(** X9. When the registry holds each id once, the groups taken together are
    the feed items of the followed channels, each item in one group; an item
    of a channel that is not followed, as the items of a removed channel
    are, is in no group. *)
Theorem getVideosByChannel_partition `{JsDate} (channels : list Channel)
    (videos : list FeedItem) :
  (NoDup (ch_id <$> channels) ->
     concat (getVideosByChannel channels videos).*2
     ≡ₚ filter (fun v => item_channelId v ∈ (ch_id <$> channels)) videos)
  /\ (forall v channel vids, item_channelId v ∉ (ch_id <$> channels) ->
        (channel, vids) ∈ getVideosByChannel channels videos -> v ∉ vids).
Proof.
  split.
  - induction channels as [|c channels IH]; intros Hnd.
    + simpl. induction videos as [|v videos IHv]; [done |].
      rewrite filter_cons_False; [done |]. by intros ?%elem_of_nil.
    + rewrite fmap_cons in Hnd. apply NoDup_cons in Hnd as [Hc Hnd].
      rewrite getVideosByChannel_cons, fmap_app, concat_app, (IH Hnd).
      assert (concat (match filter (fun v => item_channelId v = ch_id c) videos with
                      | [] => []
                      | v :: vs => [(c, v :: vs)]
                      end).*2
              = filter (fun v => item_channelId v = ch_id c) videos) as ->.
      { destruct (filter (fun v => item_channelId v = ch_id c) videos); simpl;
          [done | by rewrite app_nil_r]. }
      rewrite (list_filter_iff
                 (fun v => item_channelId v ∈ ch_id <$> c :: channels)
                 (fun v => item_channelId v = ch_id c
                           \/ item_channelId v ∈ ch_id <$> channels))
        by (intros v; rewrite fmap_cons, elem_of_cons; done).
      symmetry. apply filter_or_disjoint.
      intros v Hv Hin. apply Hc. by rewrite <- Hv.
  - intros v channel vids Hout (Hc & -> & _)%elem_of_getVideosByChannel Hin.
    apply list_elem_of_filter in Hin as [Hid _]. apply Hout.
    rewrite Hid. apply list_elem_of_fmap. by exists channel.
Qed.

Lemma getVideosByChannel_partition_witness :
  concat (getVideosByChannel [channelA; channelB] [itemB2; itemB3; itemB1 "Opening"]).*2
  ≡ₚ filter (fun v => item_channelId v ∈ (ch_id <$> [channelA; channelB]))
       [itemB2; itemB3; itemB1 "Opening"].
Proof.
  apply (getVideosByChannel_partition [channelA; channelB]
           [itemB2; itemB3; itemB1 "Opening"]).
  apply (bool_decide_unpack _). vm_compute. exact I.
Defined.

(** X10. Removing a channel takes its group, and only its group, out of the
    view; the feed itself is not consulted or changed by the removal.  A
    change of preference changes no group's items: what was fetched before
    stays on view until the next refresh. *)
Theorem view_after_registry_edit `{JsDate} (channels : list Channel)
    (videos : list FeedItem) (selectedChannel : option string) (channelId : string)
    (contentType : ContentType) (enabled : bool) :
  getVideosByChannel (removeChannel channels selectedChannel channelId).1 videos
  = filter (fun g => ch_id g.1 <> channelId) (getVideosByChannel channels videos)
  /\ (getVideosByChannel (updateContentType channels channelId contentType enabled) videos).*2
     = (getVideosByChannel channels videos).*2.
Proof.
  split.
  - simpl. induction channels as [|c channels IH]; [done |].
    rewrite getVideosByChannel_cons.
    rewrite (filter_app (fun g : Channel * list FeedItem => ch_id g.1 <> channelId)).
    rewrite <- IH. rewrite filter_cons.
    destruct (decide (ch_id c <> channelId)) as [Hne|Heq].
    + rewrite getVideosByChannel_cons. f_equal.
      destruct (filter _ videos); [done |].
      rewrite (filter_cons_True (fun g : Channel * list FeedItem => ch_id g.1 <> channelId))
        by done.
      done.
    + destruct (filter (fun v => item_channelId v = ch_id c) videos); [done |].
      rewrite (filter_cons_False (fun g : Channel * list FeedItem => ch_id g.1 <> channelId))
        by done.
      done.
  - unfold updateContentType. induction channels as [|c channels IH]; [done |].
    rewrite fmap_cons, !getVideosByChannel_cons, !fmap_app, IH. f_equal.
    assert (ch_id (if decide (ch_id c = channelId)
                   then {| ch_id := ch_id c; ch_name := ch_name c;
                           ch_thumbnail := ch_thumbnail c;
                           ch_uploadsPlaylistId := ch_uploadsPlaylistId c;
                           ch_contentTypes :=
                             setContentType (ch_contentTypes c) contentType enabled |}
                   else c) = ch_id c) as -> by (by case_decide).
    by destruct (filter _ videos).
Qed.

(** ** Relative dates *)

(** X11. A valid date less than an hour away is shown in minutes, less than
    a day away in hours, less than 30 days away in days, with a number below
    60, 24 and 30; from 30 days on, and for an invalid date, the locale's
    date is shown.  Only the distance counts: a date in the future reads as
    the date as far in the past. *)
Theorem formatDate_ranges `{JsDate} `{JsLocale} (today : Z) (dateString : string) :
  (forall t, Date_getTime dateString = Some t ->
     let d := Z.abs (today - t) in
     (d < 3600000 ->
        formatDate today dateString = pretty (d / 60000) +:+ "m ago"
        /\ 0 <= d / 60000 < 60)
     /\ (3600000 <= d < 86400000 ->
         formatDate today dateString = pretty (d / 3600000) +:+ "h ago"
         /\ 1 <= d / 3600000 < 24)
     /\ (86400000 <= d < 2592000000 ->
         formatDate today dateString = pretty (d / 86400000) +:+ "d ago"
         /\ 1 <= d / 86400000 < 30)
     /\ (2592000000 <= d ->
         formatDate today dateString = Date_toLocaleDateString dateString)
     /\ (forall other t', Date_getTime other = Some t' ->
           Z.abs (today - t') = d -> d < 2592000000 ->
           formatDate today other = formatDate today dateString))
  /\ (Date_getTime dateString = None ->
      formatDate today dateString = Date_toLocaleDateString dateString).
Proof.
  split.
  - intros t Ht d. unfold formatDate. rewrite Ht. fold d.
    assert (0 <= d) as Hd by (subst d; lia).
    change (1000 * 60 * 60 * 24) with 86400000.
    change (1000 * 60 * 60) with 3600000. change (1000 * 60) with 60000.
    split_and!.
    + intros Hlt. rewrite decide_True by (Z.div_mod_to_equations; lia).
      split; [done |]. Z.div_mod_to_equations; lia.
    + intros Hrange. rewrite decide_False by (Z.div_mod_to_equations; lia).
      rewrite decide_True by (Z.div_mod_to_equations; lia).
      split; [done |]. Z.div_mod_to_equations; lia.
    + intros Hrange. rewrite decide_False by (Z.div_mod_to_equations; lia).
      rewrite decide_False by (Z.div_mod_to_equations; lia).
      rewrite decide_True by (Z.div_mod_to_equations; lia).
      split; [done |]. Z.div_mod_to_equations; lia.
    + intros Hfar. rewrite decide_False by (Z.div_mod_to_equations; lia).
      rewrite decide_False by (Z.div_mod_to_equations; lia).
      rewrite decide_False by (Z.div_mod_to_equations; lia). done.
    + intros other t' Ht' Hsame Hnear. rewrite Ht', Hsame.
      repeat case_decide; try done.
      exfalso. Z.div_mod_to_equations; lia.
  - intros Hnone. unfold formatDate. by rewrite Hnone.
Qed.

(** Six hours before and six hours after [sampleToday] read the same. *)
Lemma formatDate_ranges_witness :
  formatDate sampleToday "2024-03-10T06:00:00Z"
  = formatDate sampleToday "2024-03-09T18:00:00Z".
Proof.
  pose proof (formatDate_ranges sampleToday "2024-03-09T18:00:00Z") as [Hvalid _].
  destruct (Hvalid 1710007200000) as (_ & _ & _ & _ & Hsame).
  - vm_compute. reflexivity.
  - apply (Hsame "2024-03-10T06:00:00Z" 1710050400000).
    + vm_compute. reflexivity.
    + vm_compute. reflexivity.
    + vm_compute. reflexivity.
Defined.

(** ** What one channel's fetch sends *)

Section RequestFacts.
Context `{JsDate} (up : Upstream).

Lemma sent_app {A} (m : IO A) (fx : Effects) (rs : list Request) :
  requests (m fx).2 = (requests fx ++ rs)%list -> sent m fx = rs.
Proof. intros Heq. unfold sent. rewrite Heq. by rewrite drop_app_length. Qed.

Lemma bind_Returned {A B} (m : IO A) (k : A -> IO B) fx b fx' :
  bind m k fx = (Returned b, fx') ->
  exists a fx1, m fx = (Returned a, fx1) /\ k a fx1 = (Returned b, fx').
Proof.
  unfold bind. destruct (m fx) as [[a|e] fx1]; [| done]. intros Hk. by exists a, fx1.
Qed.

Lemma resolve_requests channel fx :
  requests (resolveUploadsPlaylistId up channel fx).2
  = (requests fx
     ++ match truthy (ch_uploadsPlaylistId channel) with
        | Some _ => []
        | None => [GetChannels (ch_id channel)]
        end)%list.
Proof.
  unfold resolveUploadsPlaylistId. destruct (truthy (ch_uploadsPlaylistId channel)).
  - simpl. by rewrite app_nil_r.
  - unfold bind, getChannels. destruct (channelsReply up _ _) as [uploads|e]; [| done].
    by destruct (truthy uploads).
Qed.

Lemma fetchBatches_requests bs : forall acc fx,
  exists k, requests (fetchBatches up bs acc fx).2
            = (requests fx ++ (GetVideos <$> take k bs))%list.
Proof.
  induction bs as [|b bs IH]; intros acc fx.
  - exists 0%nat. simpl. by rewrite app_nil_r.
  - simpl. unfold bind, getVideos.
    destruct (videosReply up _ _) as [videoData|e].
    + destruct (IH (storeDurations videoData acc) (send (GetVideos b) fx)) as [k Hk].
      exists (S k). rewrite Hk. simpl. by rewrite <- app_assoc.
    + by exists 1%nat.
Qed.

Lemma fetchPlaylistVideos_requests channel fetchSettings cutoff uploads fx :
  exists rp rv,
    requests (fetchPlaylistVideos up channel fetchSettings cutoff uploads fx).2
    = (requests fx ++ rp ++ rv)%list
    /\ (rp = [] \/ exists playlistId, uploads = Some playlistId
          /\ rp = [GetPlaylistItems playlistId (maxVideosPerChannel fetchSettings * 2)])
    /\ Forall (fun r => exists ids, r = GetVideos ids /\ (length ids <= batchSize)%nat) rv
    /\ (rp = [] -> rv = [])
    /\ (ct_longForm (ch_contentTypes channel) = false ->
        ct_shorts (ch_contentTypes channel) = false -> rp = []).
Proof.
  unfold fetchPlaylistVideos.
  destruct uploads as [playlistId|];
    [| exists [], []; simpl; rewrite app_nil_r; split_and!; auto].
  destruct (ct_longForm _ || ct_shorts _) eqn:Hkinds;
    [| exists [], []; simpl; rewrite app_nil_r; split_and!; auto].
  assert (ct_longForm (ch_contentTypes channel) = false ->
          ct_shorts (ch_contentTypes channel) = false -> False) as Hon.
  { intros H1 H2. rewrite H1, H2 in Hkinds. done. }
  unfold bind at 1, getPlaylistItems.
  set (rp := GetPlaylistItems playlistId (maxVideosPerChannel fetchSettings * 2)).
  destruct (playlistItemsReply up _ _ _) as [[[|item more]|]|e];
    try (exists [rp], []; simpl; split_and!;
         [done | right; by exists playlistId | done | done | intros; by exfalso; auto]).
  unfold bind. set (ids := omap _ (item :: more)).
  destruct (fetchBatches_requests (batches ids) ∅ (send rp fx)) as [k Hk].
  rewrite <- fetchDurations_batches in Hk.
  exists [rp], (GetVideos <$> take k (batches ids)). split_and!.
  - destruct (fetchDurations up ids (send rp fx)) as [[durations|e] fx1];
      simpl in *; rewrite Hk; by rewrite <- app_assoc.
  - right. by exists playlistId.
  - apply Forall_fmap, Forall_forall. intros b Hb. exists b. split; [done |].
    assert (b ∈ batches ids) as Hin by (eapply elem_of_sublist; [exact Hb | apply sublist_take]).
    pose proof (batches_bounded ids) as Hbound. rewrite Forall_forall in Hbound.
    by apply Hbound.
  - done.
  - intros H1 H2. destruct (Hon H1 H2).
Qed.

Lemma fetchCommunityPosts_requests channel fetchSettings cutoff fx :
  requests (fetchCommunityPosts up channel fetchSettings cutoff fx).2
  = (requests fx
     ++ if ct_community (ch_contentTypes channel)
        then [GetActivities (ch_id channel) (maxVideosPerChannel fetchSettings)]
        else [])%list.
Proof.
  unfold fetchCommunityPosts. destruct (ct_community _).
  - unfold bind, getActivities. by destruct (activitiesReply up _ _ _) as [[entries|]|e].
  - simpl. by rewrite app_nil_r.
Qed.

End RequestFacts.

Lemma fetchChannelVideos_requests_shape `{JsDate} (up : Upstream) (apiKey : string)
    (fetchSettings : FetchSettings) (channel : Channel) (fx : Effects) :
  exists rc rp rv ra,
    requests (fetchChannelVideos up apiKey fetchSettings channel fx).2
    = (requests fx ++ rc ++ rp ++ rv ++ ra)%list
    /\ (rc = [] \/ rc = [GetChannels (ch_id channel)])
    /\ (rp = [] \/ exists playlistId,
          rp = [GetPlaylistItems playlistId (maxVideosPerChannel fetchSettings * 2)])
    /\ Forall (fun r => exists ids, r = GetVideos ids /\ (length ids <= batchSize)%nat) rv
    /\ (ra = [] \/ ra = [GetActivities (ch_id channel) (maxVideosPerChannel fetchSettings)])
    /\ (apiKey = "" -> rc = [] /\ rp = [] /\ rv = [] /\ ra = [])
    /\ (truthy (ch_uploadsPlaylistId channel) <> None -> rc = [])
    /\ (rp = [] -> rv = [])
    /\ (ct_longForm (ch_contentTypes channel) = false ->
        ct_shorts (ch_contentTypes channel) = false -> rp = [])
    /\ (ct_community (ch_contentTypes channel) = false -> ra = []).
Proof.
  unfold fetchChannelVideos. case_decide as Hkey.
  { exists [], [], [], []. simpl. rewrite app_nil_r.
    split_and!; auto; try (by constructor). }
  set (rc := match truthy (ch_uploadsPlaylistId channel) with
             | Some _ => []
             | None => [GetChannels (ch_id channel)]
             end).
  assert (rc = [] \/ rc = [GetChannels (ch_id channel)]) as Hrc
    by (subst rc; destruct (truthy _); auto).
  assert (truthy (ch_uploadsPlaylistId channel) <> None -> rc = []) as Hcached
    by (subst rc; by destruct (truthy _)).
  pose proof (resolve_requests up channel fx) as Hresolve. fold rc in Hresolve.
  unfold bind, newDate.
  set (cutoff := cutoffDate fetchSettings (clock up (length (requests fx)))).
  destruct (resolveUploadsPlaylistId up channel fx) as [[uploads|e] fx1]; simpl in Hresolve.
  2: { exists rc, [], [], []. simpl. rewrite !app_nil_r.
       split_and!; auto; try (by constructor); intros; congruence. }
  destruct (fetchPlaylistVideos_requests up channel fetchSettings cutoff uploads fx1)
    as (rp & rv & Hplaylist & Hrp & Hrv & Hnorp & Hoff).
  assert (rp = [] \/ exists playlistId,
            rp = [GetPlaylistItems playlistId (maxVideosPerChannel fetchSettings * 2)])
    as Hrp' by (destruct Hrp as [?|(pl & _ & ?)]; [by left | right; by exists pl]).
  destruct (fetchPlaylistVideos up channel fetchSettings cutoff uploads fx1)
    as [[videos|e] fx2]; simpl in Hplaylist.
  2: { exists rc, rp, rv, []. simpl. rewrite Hplaylist, Hresolve, app_nil_r.
       rewrite <- !app_assoc. split_and!; auto; intros; congruence. }
  pose proof (fetchCommunityPosts_requests up channel fetchSettings cutoff fx2) as Hposts.
  set (ra := if ct_community (ch_contentTypes channel)
             then [GetActivities (ch_id channel) (maxVideosPerChannel fetchSettings)]
             else []) in Hposts.
  exists rc, rp, rv, ra. split_and!; auto.
  - destruct (fetchCommunityPosts up channel fetchSettings cutoff fx2) as [[posts|e] fx3];
      simpl in *; rewrite Hposts, Hplaylist, Hresolve; by rewrite <- !app_assoc.
  - subst ra. destruct (ct_community _); auto.
  - intros; congruence.
  - intros Hoffc. subst ra. by rewrite Hoffc.
Qed.

(** X12. The requests of one channel's fetch, in order: at most one channels
    lookup, none when the playlist id is cached; at most one playlist
    request, asking for twice the maximum, and none when long-form and shorts
    are both off; duration requests of at most 50 ids each, only after a
    playlist request; at most one activities request, asking for the
    maximum, and none when community posts are off.  Without an API key
    nothing is sent. *)
Theorem fetchChannelVideos_requests `{JsDate} (up : Upstream) (apiKey : string)
    (fetchSettings : FetchSettings) (channel : Channel) (fx : Effects) :
  exists rc rp rv ra,
    sent (fetchChannelVideos up apiKey fetchSettings channel) fx
    = (rc ++ rp ++ rv ++ ra)%list
    /\ (rc = [] \/ rc = [GetChannels (ch_id channel)])
    /\ (rp = [] \/ exists playlistId,
          rp = [GetPlaylistItems playlistId (maxVideosPerChannel fetchSettings * 2)])
    /\ Forall (fun r => exists ids, r = GetVideos ids /\ (length ids <= batchSize)%nat) rv
    /\ (ra = [] \/ ra = [GetActivities (ch_id channel) (maxVideosPerChannel fetchSettings)])
    /\ (apiKey = "" -> rc = [] /\ rp = [] /\ rv = [] /\ ra = [])
    /\ (truthy (ch_uploadsPlaylistId channel) <> None -> rc = [])
    /\ (rp = [] -> rv = [])
    /\ (ct_longForm (ch_contentTypes channel) = false ->
        ct_shorts (ch_contentTypes channel) = false -> rp = [])
    /\ (ct_community (ch_contentTypes channel) = false -> ra = []).
Proof.
  destruct (fetchChannelVideos_requests_shape up apiKey fetchSettings channel fx)
    as (rc & rp & rv & ra & Hreq & Hrest).
  exists rc, rp, rv, ra. split; [by apply sent_app | exact Hrest].
Qed.

(** Channel C, followed for community posts only, with its playlist id
    cached: nothing is sent for its playlist. *)
Lemma fetchChannelVideos_requests_witness :
  exists ra,
    sent (fetchChannelVideos sampleUpstream "KEY" sampleSettings channelC) noEffects = ra
    /\ (ra = [] \/ ra = [GetActivities "UCgamma" 10]).
Proof.
  destruct (fetchChannelVideos_requests sampleUpstream "KEY" sampleSettings channelC
              noEffects)
    as (rc & rp & rv & ra & Hsent & _ & _ & _ & Hra & _ & Hcached & Hnorp & Hoff & _).
  exists ra. split; [| exact Hra].
  rewrite Hsent, Hcached by (vm_compute; discriminate).
  rewrite (Hnorp (Hoff eq_refl eq_refl)), (Hoff eq_refl eq_refl). reflexivity.
Defined.

(** ** What one channel's fetch returns *)

Section ItemFacts.
Context `{JsDate} (up : Upstream).

Lemma playlistVideo_Some channel fetchSettings cutoff videoDurations item x :
  playlistVideo channel fetchSettings cutoff videoDurations item = Some x ->
  item_channelId x = ch_id channel /\ item_channelName x = ch_name channel
  /\ kindEnabled channel x /\ labelMatchesKind x
  /\ item_publishedAt x = pl_publishedAt item
  /\ videoInRange fetchSettings cutoff (item_publishedAt x) = true.
Proof.
  unfold playlistVideo. destruct (videoInRange _ _ _) eqn:Hrange; [| done].
  destruct (classify_cases (pl_videoId item) videoDurations) as [-> | ->];
    destruct (_ || _) eqn:Hkind; try done; intros [= <-]; simpl in *;
    unfold kindEnabled; simpl; split_and!; auto.
  by rewrite orb_false_r in Hkind.
Qed.

Lemma communityPost_Some channel fetchSettings cutoff item x :
  communityPost channel fetchSettings cutoff item = Some x ->
  item_channelId x = ch_id channel /\ item_channelName x = ch_name channel
  /\ item_type x = community /\ labelMatchesKind x
  /\ item_publishedAt x = act_publishedAt item
  /\ postInRange fetchSettings cutoff (item_publishedAt x) = true.
Proof.
  unfold communityPost. case_decide; [| done].
  destruct (postInRange _ _ _) eqn:Hrange; [| done]. intros [= <-]. done.
Qed.

Lemma fetchPlaylistVideos_Returned channel fetchSettings cutoff uploads fx videos fx' :
  fetchPlaylistVideos up channel fetchSettings cutoff uploads fx = (Returned videos, fx') ->
  exists entries videoDurations,
    videos = omap (playlistVideo channel fetchSettings cutoff videoDurations) entries
    /\ (entries = []
        \/ exists fx1 fx2,
             fetchDurations up (omap (fun it => truthy (pl_videoId it)) entries) fx1
             = (Returned videoDurations, fx2))
    /\ (forall playlistId items,
          uploads = Some playlistId ->
          ct_longForm (ch_contentTypes channel) || ct_shorts (ch_contentTypes channel) = true ->
          playlistItemsReply up (length (requests fx)) playlistId
            (maxVideosPerChannel fetchSettings * 2) = Returned (Some items) ->
          entries = items).
Proof.
  unfold fetchPlaylistVideos. destruct uploads as [playlistId|].
  2: { intros [= <- <-]. exists [], ∅. split_and!; [done | by left | done]. }
  destruct (_ || _) eqn:Hkinds.
  2: { intros [= <- <-]. exists [], ∅. split_and!; [done | by left | done]. }
  intros (items & fx1 & Hitems & Hrest)%bind_Returned.
  unfold getPlaylistItems in Hitems. injection Hitems as Hreply <-.
  destruct items as [[|item more]|].
  - injection Hrest as <- <-. exists [], ∅. split_and!; [done | by left |].
    intros pl items [= <-] _ Hitems'. congruence.
  - apply bind_Returned in Hrest as (videoDurations & fx2 & Hdurations & [= <- <-]).
    exists (item :: more), videoDurations. split_and!; [done | right; by eexists _, _ |].
    intros pl items [= <-] _ Hitems'. congruence.
  - injection Hrest as <- <-. exists [], ∅. split_and!; [done | by left |].
    intros pl items [= <-] _ Hitems'. congruence.
Qed.

Lemma fetchCommunityPosts_Returned channel fetchSettings cutoff fx posts fx' :
  fetchCommunityPosts up channel fetchSettings cutoff fx = (Returned posts, fx') ->
  posts = []
  \/ (ct_community (ch_contentTypes channel) = true
      /\ exists entries, posts = omap (communityPost channel fetchSettings cutoff) entries).
Proof.
  unfold fetchCommunityPosts. destruct (ct_community _); [| intros [= <- <-]; by left].
  intros ([entries|] & fx1 & _ & [= <- <-])%bind_Returned; [| by left].
  right. split; [done |]. by exists entries.
Qed.

Lemma fetchChannelVideos_Returned apiKey fetchSettings channel fx items fx' :
  fetchChannelVideos up apiKey fetchSettings channel fx = (Returned items, fx') ->
  (apiKey = "" /\ items = [])
  \/ (apiKey <> "" /\ exists uploads fx1 videos fx2 posts,
        let cutoff := cutoffDate fetchSettings (clock up (length (requests fx))) in
        resolveUploadsPlaylistId up channel fx = (Returned uploads, fx1)
        /\ fetchPlaylistVideos up channel fetchSettings cutoff uploads fx1
           = (Returned videos, fx2)
        /\ fetchCommunityPosts up channel fetchSettings cutoff fx2 = (Returned posts, fx')
        /\ items = (videos ++ posts)%list).
Proof.
  unfold fetchChannelVideos. case_decide as Hkey.
  - intros (? & ? & _ & [= <- <-])%bind_Returned. by left.
  - intros (today & fx0 & Htoday & Hrest)%bind_Returned.
    unfold newDate in Htoday. injection Htoday as <- <-.
    apply bind_Returned in Hrest as (uploads & fx1 & Hresolve & Hrest).
    apply bind_Returned in Hrest as (videos & fx2 & Hvideos & Hrest).
    apply bind_Returned in Hrest as (posts & fx3 & Hposts & [= <- <-]).
    right. split; [done |]. by exists uploads, fx1, videos, fx2, posts.
Qed.

End ItemFacts.

(** X13. Every item a channel's fetch returns carries the id and the name of
    that channel, is of a kind the channel has enabled, is labelled [Short]
    when it is a short and [Video] when it is long-form, and, when the time
    range is not 0 and its date is valid, was published at or after the
    cutoff.  Without an API key the fetch returns no item. *)
Theorem fetchChannelVideos_items `{JsDate} (up : Upstream) (apiKey : string)
    (fetchSettings : FetchSettings) (channel : Channel) (fx fx' : Effects)
    (items : list FeedItem) :
  fetchChannelVideos up apiKey fetchSettings channel fx = (Returned items, fx') ->
  Forall (fun x =>
            item_channelId x = ch_id channel /\ item_channelName x = ch_name channel
            /\ kindEnabled channel x /\ labelMatchesKind x
            /\ (forall t, timeRangeDays fetchSettings <> 0 ->
                  Date_getTime (item_publishedAt x) = Some t ->
                  cutoffDate fetchSettings (clock up (length (requests fx))) <= t))
         items
  /\ (apiKey = "" -> items = []).
Proof.
  intros [[-> ->] | (Hkey & uploads & fx1 & videos & fx2 & posts & Hfetch)]%fetchChannelVideos_Returned.
  { split; [constructor | done]. }
  simpl in Hfetch. destruct Hfetch as (_ & Hvideos & Hposts & ->).
  split; [| done]. apply Forall_app. split.
  - apply fetchPlaylistVideos_Returned in Hvideos as (entries & durations & -> & _ & _).
    apply Forall_forall. intros x (item & _ & Hx)%list_elem_of_omap.
    apply playlistVideo_Some in Hx as (Hid & Hname & Hkind & Hlabel & _ & Hrange).
    split_and!; try done.
    intros t Hdays Ht. unfold videoInRange in Hrange. rewrite Ht in Hrange.
    rewrite bool_decide_eq_true_2 in Hrange by done. simpl in Hrange.
    apply negb_true_iff, bool_decide_eq_false in Hrange. lia.
  - apply fetchCommunityPosts_Returned in Hposts as [-> | (Hon & entries & ->)];
      [constructor |].
    apply Forall_forall. intros x (item & _ & Hx)%list_elem_of_omap.
    apply communityPost_Some in Hx as (Hid & Hname & Hkind & Hlabel & _ & Hrange).
    split_and!; try done.
    + unfold kindEnabled. by rewrite Hkind.
    + intros t Hdays Ht. unfold postInRange in Hrange. rewrite Ht in Hrange.
      rewrite bool_decide_eq_false_2 in Hrange by done. simpl in Hrange.
      by apply bool_decide_eq_true in Hrange.
Qed.

Lemma fetchChannelVideos_items_witness :
  Forall (fun x => item_channelId x = "UCbeta" /\ item_channelName x = "Beta"
                   /\ kindEnabled channelB x /\ labelMatchesKind x
                   /\ (forall t, timeRangeDays sampleSettings <> 0 ->
                         Date_getTime (item_publishedAt x) = Some t ->
                         cutoffDate sampleSettings sampleToday <= t))
         [itemB1 "Opening"; itemB2; itemB3].
Proof.
  apply (fetchChannelVideos_items sampleUpstream "KEY" sampleSettings channelB noEffects
           (fetchChannelVideos sampleUpstream "KEY" sampleSettings channelB noEffects).2
           [itemB1 "Opening"; itemB2; itemB3]).
  vm_compute. reflexivity.
Defined.

(** X14. The maximum per channel bounds what is asked of the upstream, not
    what is kept: with the time range at 0 and long-form and shorts both on,
    every entry the playlist request returns becomes a feed item, in the
    order of the playlist. *)
Theorem fetchPlaylistVideos_keeps_all `{JsDate} (up : Upstream)
    (fetchSettings : FetchSettings) (channel : Channel) (cutoff : Z)
    (playlistId : string) (entries : list PlaylistItem) (fx fx' : Effects)
    (videos : list FeedItem) :
  timeRangeDays fetchSettings = 0 ->
  ct_longForm (ch_contentTypes channel) = true ->
  ct_shorts (ch_contentTypes channel) = true ->
  playlistItemsReply up (length (requests fx)) playlistId
    (maxVideosPerChannel fetchSettings * 2) = Returned (Some entries) ->
  fetchPlaylistVideos up channel fetchSettings cutoff (Some playlistId) fx
  = (Returned videos, fx') ->
  item_publishedAt <$> videos = pl_publishedAt <$> entries
  /\ length videos = length entries.
Proof.
  intros Hzero Hlong Hshorts Hreply Hfetch.
  apply fetchPlaylistVideos_Returned in Hfetch as (entries' & durations & -> & _ & Hentries).
  rewrite (Hentries playlistId entries) by (done || by rewrite Hlong).
  assert (item_publishedAt <$> omap (playlistVideo channel fetchSettings cutoff durations) entries
          = pl_publishedAt <$> entries) as Hall.
  { clear Hreply Hentries.
    induction entries as [|item entries IH]; [done |]. csimpl.
    unfold playlistVideo at 1. unfold videoInRange.
    rewrite bool_decide_eq_false_2 by (intros Hne; by apply Hne). simpl.
    destruct (classify_cases (pl_videoId item) durations) as [-> | ->];
      rewrite Hlong, Hshorts; csimpl; by rewrite IH. }
  split; [done |]. apply (f_equal length) in Hall. by rewrite !length_fmap in Hall.
Qed.

Lemma fetchPlaylistVideos_keeps_all_witness :
  length [itemB1 "Opening"; itemB2; itemB3] = length [entryB1; entryB2; entryB3].
Proof.
  apply (fetchPlaylistVideos_keeps_all sampleUpstream
           {| maxVideosPerChannel := 1; timeRangeDays := 0 |} channelB 0 "UUbeta"
           [entryB1; entryB2; entryB3] noEffects
           (fetchPlaylistVideos sampleUpstream channelB
              {| maxVideosPerChannel := 1; timeRangeDays := 0 |} 0
              (Some "UUbeta") noEffects).2).
  - reflexivity.
  - reflexivity.
  - reflexivity.
  - reflexivity.
  - vm_compute. reflexivity.
Defined.

(** ** Merging the same items again *)

Section MergeAgainFacts.
Context `{JsDate}.

Lemma Array_sort_sorted_id (l : list FeedItem) :
  StronglySorted notOlder l -> Array_sort compareByPublishedDesc l = l.
Proof.
  induction 1 as [|x l Hsorted IH Hall]; [done |].
  change (Array_sort compareByPublishedDesc (x :: l))
    with (sortInsert compareByPublishedDesc x (Array_sort compareByPublishedDesc l)).
  rewrite IH. destruct l as [|y l']; [done |]. simpl.
  apply Forall_cons in Hall as [Hxy _]. unfold notOlder in Hxy.
  destruct (Date_getTime (item_publishedAt x)) as [tx|] eqn:Hx; [| done].
  destruct (Date_getTime (item_publishedAt y)) as [ty|] eqn:Hy; [| done].
  rewrite (compareByPublishedDesc_valid x y tx ty Hx Hy).
  by rewrite decide_True by lia.
Qed.

Lemma JsMap_get_None {V} k (m : JsMap.t V) : k ∉ JsMap.keys m -> JsMap.get k m = None.
Proof.
  induction m as [|[k' v'] m IH]; [done |]. simpl. intros Hnotin.
  apply not_elem_of_cons in Hnotin as [Hne Hnotin].
  rewrite decide_False by done. by apply IH.
Qed.

Lemma JsMap_ext {V} (m1 m2 : JsMap.t V) :
  NoDup (JsMap.keys m1) -> JsMap.keys m1 = JsMap.keys m2 ->
  (forall k, JsMap.get k m1 = JsMap.get k m2) -> m1 = m2.
Proof.
  revert m2. induction m1 as [|[k1 v1] m1 IH]; intros [|[k2 v2] m2] Hnd Hkeys Hget;
    try done.
  simpl in Hkeys. injection Hkeys as -> Hkeys.
  apply NoDup_cons in Hnd as [Hnotin Hnd].
  pose proof (Hget k2) as Hv. simpl in Hv. rewrite !decide_True in Hv by done.
  injection Hv as ->. f_equal. apply IH; [done | done |].
  intros k. destruct (decide (k2 = k)) as [<-|Hne].
  - rewrite !JsMap_get_None; [done | | done]. unfold JsMap.keys in *. by rewrite <- Hkeys.
  - specialize (Hget k). simpl in Hget. by rewrite !decide_False in Hget.
Qed.

Lemma JsMap_setAll_keys_same {V} (entries : list (string * V)) : forall m,
  Forall (fun e => e.1 ∈ JsMap.keys m) entries ->
  JsMap.keys (JsMap.setAll entries m) = JsMap.keys m.
Proof.
  induction entries as [|e entries IH]; intros m Hall; [done |].
  apply Forall_cons in Hall as [Hin Hall].
  assert (JsMap.keys (JsMap.set e.1 e.2 m) = JsMap.keys m) as Hset
    by (by rewrite JsMap_set_keys, decide_True).
  change (JsMap.setAll (e :: entries) m)
    with (JsMap.setAll entries (JsMap.set e.1 e.2 m)).
  rewrite IH; [done |]. by rewrite Hset.
Qed.

Lemma filter_none {A} (P : A -> Prop) `{forall x, Decision (P x)} (l : list A) :
  Forall (fun z => ~ P z) l -> filter P l = [].
Proof.
  induction 1 as [|z l Hz _ IH]; [done |]. by rewrite (filter_cons_False P).
Qed.

Lemma filter_key_singleton {A B} `{EqDecision B} (f : A -> B) (l : list A) x :
  NoDup (f <$> l) -> x ∈ l -> filter (fun y => f y = f x) l = [x].
Proof.
  induction l as [|y l IH]; csimpl; intros Hnd Hin; [by apply elem_of_nil in Hin |].
  apply NoDup_cons in Hnd as [Hnotin Hnd]. apply elem_of_cons in Hin as [->|Hin].
  - rewrite (filter_cons_True (fun z => f z = f y)) by done. f_equal.
    apply (filter_none (fun z => f z = f y)), Forall_forall.
    intros z Hz Heq. apply Hnotin. rewrite <- Heq. by apply list_elem_of_fmap_2.
  - rewrite (filter_cons_False (fun z => f z = f x)); [by apply IH |].
    intros Heq. apply Hnotin. rewrite Heq. by apply list_elem_of_fmap_2.
Qed.

Lemma mergeMap_own_values (l : list FeedItem) :
  NoDup (buildVideoKey <$> l) ->
  JsMap.values (mergeMap l []) = l /\ JsMap.keys (mergeMap l []) = buildVideoKey <$> l.
Proof.
  intros Hnd.
  assert (JsMap.values (mergeMap l []) = l) as Hvalues.
  { rewrite mergeMap_setAll, app_nil_r.
    by rewrite (mergeMap_NoDup_id l []) by done. }
  split; [done |]. by rewrite <- mergeMap_values_keys, Hvalues.
Qed.

Lemma latestWith_merged k prev newVideos :
  latestWith (fun y => buildVideoKey y = k) (mergeVideos prev newVideos ++ newVideos)
  = latestWith (fun y => buildVideoKey y = k) (mergeVideos prev newVideos).
Proof.
  destruct (latestWith (fun y => buildVideoKey y = k) newVideos) as [x|] eqn:Hlatest.
  - pose proof Hlatest as Hx.
    apply latestWith_Some in Hx as (Hkey & older & newer & -> & Hnewer).
    assert (x ∈ mergeVideos prev (older ++ x :: newer)) as Hin.
    { apply elem_of_mergeVideos. rewrite app_assoc. apply latestWith_split; [done |].
      rewrite Hkey. exact Hnewer. }
    transitivity (Some x).
    + rewrite app_assoc. by apply latestWith_split.
    + unfold latestWith. subst k.
      by rewrite (filter_key_singleton buildVideoKey _ x
                    (mergeVideos_NoDup_keys prev (older ++ x :: newer)) Hin).
  - unfold latestWith in *. rewrite (filter_app (fun y => buildVideoKey y = k)).
    rewrite last_app, Hlatest. done.
Qed.

Lemma mergeMap_again prev newVideos :
  mergeMap (mergeVideos prev newVideos) newVideos = mergeMap (mergeVideos prev newVideos) [].
Proof.
  set (feed := mergeVideos prev newVideos).
  destruct (mergeMap_own_values feed (mergeVideos_NoDup_keys prev newVideos))
    as [Hvalues Hkeys].
  apply JsMap_ext.
  - apply mergeMap_NoDup.
  - change (mergeMap feed newVideos)
      with (JsMap.setAll ((fun item => (buildVideoKey item, item)) <$> newVideos)
              (mergeMap feed [])).
    apply JsMap_setAll_keys_same, Forall_forall.
    intros e (x & -> & Hx)%list_elem_of_fmap. simpl. rewrite Hkeys.
    destruct (latestWith_is_Some (fun y => buildVideoKey y = buildVideoKey x)
                (prev ++ newVideos) x) as [y Hy]; [set_solver | done |].
    pose proof Hy as [Hkey _]%latestWith_Some. rewrite <- Hkey.
    apply list_elem_of_fmap_2, elem_of_mergeVideos. by rewrite Hkey.
  - intros k. rewrite !mergeMap_get, app_nil_r. apply latestWith_merged.
Qed.

End MergeAgainFacts.

(** X15. Merging is idempotent: when the dates are valid, merging the same
    fetched items into the merged feed a second time changes nothing. *)
Theorem mergeVideos_idempotent `{JsDate} (prev newVideos : list FeedItem) :
  Forall validDate prev -> Forall validDate newVideos ->
  mergeVideos (mergeVideos prev newVideos) newVideos = mergeVideos prev newVideos.
Proof.
  intros Hprev Hnew. unfold mergeVideos at 1. rewrite mergeMap_again.
  destruct (mergeMap_own_values (mergeVideos prev newVideos)
              (mergeVideos_NoDup_keys prev newVideos)) as [-> _].
  apply Array_sort_sorted_id. apply Array_sort_sorted, Forall_forall.
  intros x Hx. apply (Array_sort_elem_of compareByPublishedDesc) in Hx.
  apply mergeVideos_subseteq, elem_of_app in Hx as [Hx|Hx].
  - by apply (proj1 (Forall_forall _ _) Hprev).
  - by apply (proj1 (Forall_forall _ _) Hnew).
Qed.

Lemma mergeVideos_idempotent_witness :
  mergeVideos (mergeVideos [itemB1 "Opening (draft)"; itemB2] [itemB1 "Opening"; itemB3])
    [itemB1 "Opening"; itemB3]
  = mergeVideos [itemB1 "Opening (draft)"; itemB2] [itemB1 "Opening"; itemB3].
Proof.
  apply (mergeVideos_idempotent [itemB1 "Opening (draft)"; itemB2]
           [itemB1 "Opening"; itemB3]).
  - apply (bool_decide_unpack _). vm_compute. exact I.
  - apply (bool_decide_unpack _). vm_compute. exact I.
Defined.

(** ** The uploads playlist is looked up once *)

Lemma truthy_Some (o : option string) s : truthy o = Some s -> truthy (Some s) = Some s.
Proof.
  destruct o as [s'|]; simpl; [| done]. case_decide; [done |]. intros [= <-].
  by rewrite decide_False.
Qed.

(** X16. When the playlist id of a registry entry has been resolved and the
    update the resolution queued is applied to the registry, the entry at the
    same place keeps its id, name, thumbnail and preferences, and resolving
    it again yields the same playlist id and sends nothing. *)
Theorem resolveUploadsPlaylistId_once (up : Upstream) (channels : list Channel)
    (i : nat) (channel : Channel) (fx fx' : Effects) (uploads : string) :
  channels !! i = Some channel ->
  resolveUploadsPlaylistId up channel fx = (Returned (Some uploads), fx') ->
  let queued := drop (length (channelsUpdates fx)) (channelsUpdates fx') in
  exists channel',
    applyUpdates queued channels !! i = Some channel'
    /\ ch_id channel' = ch_id channel /\ ch_name channel' = ch_name channel
    /\ ch_thumbnail channel' = ch_thumbnail channel
    /\ ch_contentTypes channel' = ch_contentTypes channel
    /\ forall fx2, resolveUploadsPlaylistId up channel' fx2 = (Returned (Some uploads), fx2).
Proof.
  intros Hi. unfold resolveUploadsPlaylistId.
  destruct (truthy (ch_uploadsPlaylistId channel)) as [cached|] eqn:Hcached.
  - intros [= <- <-]. simpl. rewrite drop_all. exists channel.
    split_and!; try done. intros fx2. by rewrite Hcached.
  - unfold bind at 1, getChannels.
    destruct (channelsReply up _ _) as [reply|e]; [| done].
    destruct (truthy reply) as [found|] eqn:Hfound; [| done].
    intros [= <- <-]. simpl. rewrite drop_app_length. simpl.
    unfold cacheUploads. rewrite list_lookup_fmap, Hi. simpl.
    rewrite decide_True by done. eexists. split; [reflexivity |].
    split_and!; try done. intros fx2. cbn [ch_uploadsPlaylistId].
    by rewrite (truthy_Some _ _ Hfound).
Qed.

Lemma resolveUploadsPlaylistId_once_witness :
  exists channel',
    applyUpdates
      (drop (length (channelsUpdates noEffects))
         (channelsUpdates
            (resolveUploadsPlaylistId sampleUpstream
               {| ch_id := "UCold"; ch_name := "Old"; ch_thumbnail := "";
                  ch_uploadsPlaylistId := None;
                  ch_contentTypes := defaultContentTypes |} noEffects).2))
      [channelB; {| ch_id := "UCold"; ch_name := "Old"; ch_thumbnail := "";
                    ch_uploadsPlaylistId := None;
                    ch_contentTypes := defaultContentTypes |}] !! 1%nat
    = Some channel'
    /\ forall fx2, resolveUploadsPlaylistId sampleUpstream channel' fx2
                   = (Returned (Some "UUUCold"), fx2).
Proof.
  destruct (resolveUploadsPlaylistId_once sampleUpstream
              [channelB; {| ch_id := "UCold"; ch_name := "Old"; ch_thumbnail := "";
                            ch_uploadsPlaylistId := None;
                            ch_contentTypes := defaultContentTypes |}]
              1 {| ch_id := "UCold"; ch_name := "Old"; ch_thumbnail := "";
                   ch_uploadsPlaylistId := None;
                   ch_contentTypes := defaultContentTypes |}
              noEffects
              (resolveUploadsPlaylistId sampleUpstream
                 {| ch_id := "UCold"; ch_name := "Old"; ch_thumbnail := "";
                    ch_uploadsPlaylistId := None;
                    ch_contentTypes := defaultContentTypes |} noEffects).2
              "UUUCold")
    as (channel' & Hat & _ & _ & _ & _ & Hagain).
  - reflexivity.
  - vm_compute. reflexivity.
  - exists channel'. split; [exact Hat | exact Hagain].
Defined.

(** ** What adding a channel asks of the upstream *)

Lemma addChannel_requests `{JsDate} (up : Upstream) (apiKey : string)
    (fetchSettings : FetchSettings) (channels : list Channel) (channel : SearchResult)
    (fx : Effects) :
  let channelId := sr_channelId channel in
  exists rc rp rv,
    requests (addChannel up apiKey fetchSettings channels channel fx).2
    = (requests fx ++ GetChannels channelId :: rc ++ rp ++ rv)%list
    /\ (rc = [] \/ rc = [GetChannels channelId])
    /\ (rp = [] \/ exists playlistId,
          rp = [GetPlaylistItems playlistId (maxVideosPerChannel fetchSettings * 2)])
    /\ Forall (fun r => exists ids, r = GetVideos ids /\ (length ids <= batchSize)%nat) rv
    /\ (channelId ∈ (ch_id <$> channels) -> rc = [] /\ rp = [] /\ rv = [])
    /\ (apiKey = "" -> rc = [] /\ rp = [] /\ rv = [])
    /\ (forall playlistId,
          channelsReply up (length (requests fx)) channelId = Returned (Some playlistId) ->
          playlistId <> "" -> rc = [])
    /\ (rp = [] -> rv = []).
Proof.
  intros channelId. unfold addChannel, bind at 1, tryCatch at 1, bind at 1, getChannels.
  set (fx1 := send (GetChannels (sr_channelId channel)) fx).
  assert (exists uploadsPlaylistId,
    match
      match channelsReply up (length (requests fx)) (sr_channelId channel) with
      | Returned a => ret (orElse a "") fx1
      | Thrown e => (Thrown e, fx1)
      end
    with
    | (Returned a, fx') => (Returned a, fx')
    | (Thrown e, fx') => ret "" fx'
    end = (Returned uploadsPlaylistId, fx1)
    /\ forall playlistId,
         channelsReply up (length (requests fx)) channelId = Returned (Some playlistId) ->
         playlistId <> "" -> uploadsPlaylistId = playlistId) as (uploadsPlaylistId & -> & Hfound).
  { subst channelId. destruct (channelsReply up _ _) as [reply|e].
    - eexists. split; [reflexivity |]. intros playlistId [= ->] Hne.
      unfold orElse, truthy. by rewrite decide_False.
    - eexists. split; [reflexivity |]. intros playlistId [=]. }
  change (ch_id (newChannelOf channel uploadsPlaylistId)) with channelId.
  destruct (findChannel channels channelId) as [found|] eqn:Hfind.
  - exists [], [], []. simpl. split_and!; auto.
  - apply findChannel_None in Hfind.
    unfold bind at 1, setChannels at 1, tryCatch, bind at 1.
    set (newChannel := newChannelOf channel uploadsPlaylistId).
    set (fx2 := {| requests := requests fx1;
                   channelsUpdates := channelsUpdates fx1 ++ [fun prev => (prev ++ [newChannel])%list];
                   videosUpdates := videosUpdates fx1;
                   apiKeyRequested := apiKeyRequested fx1 |}).
    destruct (fetchChannelVideos_requests_shape up apiKey fetchSettings newChannel fx2)
      as (rc & rp & rv & ra & Hreq & Hrc & Hrp & Hrv & _ & Hkey & Hcached & Hnorp & _ & Hoff).
    rewrite (Hoff eq_refl), app_nil_r in Hreq.
    assert (requests fx2 = (requests fx ++ [GetChannels channelId])%list) as Hfx2 by done.
    rewrite Hfx2, <- app_assoc in Hreq. simpl in Hreq.
    exists rc, rp, rv.
    split.
    { destruct (fetchChannelVideos up apiKey fetchSettings newChannel fx2)
        as [[newVideos|e] fx3]; simpl in Hreq; [case_decide |]; simpl; exact Hreq. }
    split_and!; auto.
    + by intros Hin.
    + intros Hnokey. destruct (Hkey Hnokey) as (-> & -> & -> & _). done.
    + intros playlistId Hreply Hne. apply Hcached.
      subst newChannel. rewrite (Hfound playlistId Hreply Hne). simpl.
      by rewrite decide_False.
Qed.

(** X17. What adding a channel asks of the upstream: first the lookup of its
    uploads playlist, with or without an API key, and nothing more when the
    channel is in the registry already or there is no key.  Otherwise at most
    one more lookup follows, and none when the first one gave a playlist id,
    then at most one playlist request and duration requests of at most 50 ids
    each; the activity feed is never asked, community posts being off for a
    new channel. *)
Theorem add_requests `{JsDate} (up : Upstream) (apiKey : string)
    (fetchSettings : FetchSettings) (channel : SearchResult) (st : AppState) :
  let channelId := sr_channelId channel in
  exists rc rp rv,
    (add up apiKey fetchSettings channel st).2
    = (GetChannels channelId :: rc ++ rp ++ rv)%list
    /\ (rc = [] \/ rc = [GetChannels channelId])
    /\ (rp = [] \/ exists playlistId,
          rp = [GetPlaylistItems playlistId (maxVideosPerChannel fetchSettings * 2)])
    /\ Forall (fun r => exists ids, r = GetVideos ids /\ (length ids <= batchSize)%nat) rv
    /\ (channelId ∈ (ch_id <$> st_channels st) -> rc = [] /\ rp = [] /\ rv = [])
    /\ (apiKey = "" -> rc = [] /\ rp = [] /\ rv = [])
    /\ (forall playlistId,
          channelsReply up 0 channelId = Returned (Some playlistId) ->
          playlistId <> "" -> rc = [])
    /\ (rp = [] -> rv = []).
Proof.
  intros channelId.
  destruct (addChannel_requests up apiKey fetchSettings (st_channels st) channel noEffects)
    as (rc & rp & rv & Hreq & Hrest).
  exists rc, rp, rv. split; [| exact Hrest].
  unfold add, runHandler.
  destruct (addChannel up apiKey fetchSettings (st_channels st) channel noEffects)
    as [r fx'].
  exact Hreq.
Qed.

(** Channel B is in the registry: the lookup is all that is sent. *)
Lemma add_requests_witness :
  (add sampleUpstream "KEY" sampleSettings searchResultBeta stateAB).2
  = [GetChannels "UCbeta"].
Proof.
  destruct (add_requests sampleUpstream "KEY" sampleSettings searchResultBeta stateAB)
    as (rc & rp & rv & Hsent & _ & _ & _ & Hdup & _).
  destruct Hdup as (-> & -> & ->).
  - apply (bool_decide_unpack _). vm_compute. exact I.
  - exact Hsent.
Defined.

(** ** What a refresh leaves of the registry *)

Section RegistryRefreshFacts.
Context `{JsDate} (up : Upstream).

Lemma cacheUploads_fields channelId uploads channels :
  ch_name <$> cacheUploads channelId uploads channels = ch_name <$> channels
  /\ ch_thumbnail <$> cacheUploads channelId uploads channels = ch_thumbnail <$> channels
  /\ ch_contentTypes <$> cacheUploads channelId uploads channels
     = ch_contentTypes <$> channels.
Proof.
  unfold cacheUploads. rewrite <- !list_fmap_compose.
  split_and!; apply list_fmap_ext; intros i c _; simpl; by case_decide.
Qed.

Lemma channelOutcomes_channelsUpdates apiKey fetchSettings channels : forall fx,
  exists updates,
    channelsUpdates (channelOutcomes up apiKey fetchSettings channels fx).2
    = (channelsUpdates fx ++ updates)%list
    /\ Forall (fun u => exists channelId uploads, u = cacheUploads channelId uploads) updates.
Proof.
  induction channels as [|channel rest IH]; intros fx.
  - exists []. simpl. by rewrite app_nil_r.
  - simpl.
    destruct (queuesOnly_fetchChannelVideos up apiKey fetchSettings channel fx)
      as [_ [uploads Hc]].
    destruct (fetchChannelVideos up apiKey fetchSettings channel fx) as [r fx1].
    simpl in Hc. destruct (IH fx1) as (updates & Hrest & Hall).
    destruct (channelOutcomes up apiKey fetchSettings rest fx1) as [rs fx2].
    simpl in *. exists ((cacheUploads (ch_id channel) <$> uploads) ++ updates)%list.
    split; [by rewrite Hrest, Hc, app_assoc |].
    apply Forall_app. split; [| done].
    apply Forall_forall. intros u (pl & -> & _)%list_elem_of_fmap. by eexists _, _.
Qed.

Lemma applyUpdates_cache_fields updates : forall channels,
  Forall (fun u => exists channelId uploads, u = cacheUploads channelId uploads) updates ->
  ch_id <$> applyUpdates updates channels = ch_id <$> channels
  /\ ch_name <$> applyUpdates updates channels = ch_name <$> channels
  /\ ch_thumbnail <$> applyUpdates updates channels = ch_thumbnail <$> channels
  /\ ch_contentTypes <$> applyUpdates updates channels = ch_contentTypes <$> channels.
Proof.
  induction updates as [|u updates IH]; intros channels Hall; [done |].
  apply Forall_cons in Hall as [(channelId & uploads & ->) Hall].
  change (applyUpdates (cacheUploads channelId uploads :: updates) channels)
    with (applyUpdates updates (cacheUploads channelId uploads channels)).
  destruct (IH (cacheUploads channelId uploads channels) Hall) as (-> & -> & -> & ->).
  destruct (cacheUploads_fields channelId uploads channels) as (-> & -> & ->).
  by rewrite cacheUploads_ids.
Qed.

End RegistryRefreshFacts.

(** X18. A refresh leaves the registry as long as it was, with the ids, the
    names, the thumbnails and the preferences of its channels in place: the
    only field it writes is the cached playlist id. *)
Theorem refresh_keeps_registry `{JsDate} (up : Upstream) (apiKey : string)
    (fetchSettings : FetchSettings) (st : AppState) :
  let st' := (refresh up apiKey fetchSettings st).1.2 in
  ch_id <$> st_channels st' = ch_id <$> st_channels st
  /\ ch_name <$> st_channels st' = ch_name <$> st_channels st
  /\ ch_thumbnail <$> st_channels st' = ch_thumbnail <$> st_channels st
  /\ ch_contentTypes <$> st_channels st' = ch_contentTypes <$> st_channels st.
Proof.
  intros st'. subst st'.
  destruct (decide (st_channels st = [])) as [Hnil|Hchannels].
  { destruct (refresh_idle up apiKey fetchSettings st (or_introl Hnil)) as [reqs ->]. done. }
  destruct (decide (apiKey = "")) as [Hkey|Hkey].
  { destruct (refresh_idle up apiKey fetchSettings st (or_intror Hkey)) as [reqs ->]. done. }
  rewrite refresh_replaces by done. cbn [fst snd st_channels].
  destruct (channelOutcomes_channelsUpdates up apiKey fetchSettings (st_channels st) noEffects)
    as (updates & -> & Hall).
  simpl. by apply applyUpdates_cache_fields.
Qed.

(** X19. A refresh in which no channel contributes an item (each one threw or
    returned nothing) leaves the feed empty, whatever it held; the snapshot
    in storage is not overwritten by it and reads back as before. *)
Theorem refresh_without_items `{JsDate} (up : Upstream) (apiKey : string)
    (fetchSettings : FetchSettings) (st : AppState) :
  st_channels st <> [] -> apiKey <> "" ->
  Forall (fun r => contribution r = [])
         (channelOutcomes up apiKey fetchSettings (st_channels st) noEffects).1 ->
  let st' := (refresh up apiKey fetchSettings st).1.2 in
  st_videos st' = []
  /\ forall today saved,
       cacheVideos today (st_videos st') saved = saved
       /\ forall later, loadCachedVideos later (cacheVideos today (st_videos st') saved)
                        = loadCachedVideos later saved.
Proof.
  intros Hchannels Hkey Hall st'. subst st'.
  rewrite refresh_replaces by done. cbn [fst snd st_videos].
  assert (concat (contribution <$>
            (channelOutcomes up apiKey fetchSettings (st_channels st) noEffects).1) = [])
    as ->.
  { induction Hall as [|r rs Hr _ IH]; [done |]. csimpl. by rewrite Hr, IH. }
  split; [done |]. intros today saved. by split.
Qed.

Lemma refresh_without_items_witness :
  st_videos (refresh sampleUpstream "KEY" sampleSettings
               {| st_channels := [channelA]; st_videos := [itemB2] |}).1.2 = [].
Proof.
  apply (refresh_without_items sampleUpstream "KEY" sampleSettings
           {| st_channels := [channelA]; st_videos := [itemB2] |}).
  - discriminate.
  - discriminate.
  - vm_compute. constructor; [reflexivity | constructor].
Defined.

(** X20. One channel's fetch is all or nothing: when community posts are on
    and the activity feed throws, the fetch throws, also when the playlist
    had returned videos before; the channel then contributes nothing to a
    refresh. *)
Theorem fetchChannelVideos_all_or_nothing `{JsDate} (up : Upstream) (apiKey : string)
    (fetchSettings : FetchSettings) (channel : Channel) (fx : Effects) (e : JsError) :
  apiKey <> "" ->
  ct_community (ch_contentTypes channel) = true ->
  (forall n, activitiesReply up n (ch_id channel) (maxVideosPerChannel fetchSettings)
             = Thrown e) ->
  exists e', (fetchChannelVideos up apiKey fetchSettings channel fx).1 = Thrown e'
    /\ contribution (fetchChannelVideos up apiKey fetchSettings channel fx).1 = [].
Proof.
  intros Hkey Hcommunity Hthrows. unfold fetchChannelVideos.
  rewrite decide_False by done. unfold bind, newDate.
  destruct (resolveUploadsPlaylistId up channel fx) as [[uploads|e1] fx1];
    [| by exists e1].
  destruct (fetchPlaylistVideos up channel fetchSettings _ uploads fx1) as [[videos|e2] fx2];
    [| by exists e2].
  unfold fetchCommunityPosts. rewrite Hcommunity.
  unfold bind, getActivities. rewrite Hthrows. by exists e.
Qed.

Lemma fetchChannelVideos_all_or_nothing_witness :
  exists e', (fetchChannelVideos degradedUpstream "KEY" sampleSettings channelBAll
                noEffects).1 = Thrown e'
    /\ contribution (fetchChannelVideos degradedUpstream "KEY" sampleSettings channelBAll
                       noEffects).1 = [].
Proof.
  apply (fetchChannelVideos_all_or_nothing degradedUpstream "KEY" sampleSettings
           channelBAll noEffects NetworkError).
  - discriminate.
  - reflexivity.
  - intros n. reflexivity.
Defined.

(** ** Durations that could not be had *)

Section NoDurationFacts.
Context `{JsDate} (up : Upstream).
Hypothesis Hrefused : forall n ids, videosReply up n ids = Returned None.

Lemma fetchBatches_refused bs : forall acc fx,
  (fetchBatches up bs acc fx).1 = Returned acc.
Proof.
  induction bs as [|batch rest IH]; intros acc fx; [done |].
  simpl. unfold bind, getVideos. rewrite Hrefused. simpl. apply IH.
Qed.

Lemma fetchDurations_refused videoIds fx videoDurations fx' :
  fetchDurations up videoIds fx = (Returned videoDurations, fx') -> videoDurations = ∅.
Proof.
  rewrite fetchDurations_batches. intros Hfetch.
  pose proof (fetchBatches_refused (batches videoIds) ∅ fx) as Hnone.
  rewrite Hfetch in Hnone. simpl in Hnone. congruence.
Qed.

End NoDurationFacts.

(** X21. When every durations request is answered by an error body (no
    [items]), every video the playlist part returns is labelled long-form,
    shorts included; a channel followed for shorts only then shows no
    video. *)
Theorem fetchPlaylistVideos_without_durations `{JsDate} (up : Upstream)
    (channel : Channel) (fetchSettings : FetchSettings) (cutoff : Z)
    (uploadsPlaylistId : option string) (fx fx' : Effects) (videos : list FeedItem) :
  (forall n ids, videosReply up n ids = Returned None) ->
  fetchPlaylistVideos up channel fetchSettings cutoff uploadsPlaylistId fx
  = (Returned videos, fx') ->
  Forall (fun x => item_type x = longForm) videos
  /\ (ct_longForm (ch_contentTypes channel) = false -> videos = []).
Proof.
  intros Hrefused Hfetch.
  apply fetchPlaylistVideos_Returned in Hfetch
    as (entries & videoDurations & -> & Hdurations & _).
  assert (entries = [] \/ videoDurations = ∅) as [-> | ->].
  { destruct Hdurations as [-> | (fx1 & fx2 & Hd)]; [by left | right].
    by apply (fetchDurations_refused up Hrefused) in Hd. }
  { split; [constructor | done]. }
  assert (forall item, classify (pl_videoId item) (∅ : gmap string string)
                       = ("Video", longForm)) as Hclass.
  { intros item. unfold classify. destruct (truthy (pl_videoId item)); [| done].
    by rewrite lookup_empty. }
  split.
  - apply Forall_forall. intros x (item & _ & Hx)%list_elem_of_omap.
    unfold playlistVideo in Hx. rewrite Hclass in Hx.
    destruct (videoInRange _ _ _); [| done]. destruct (_ || _); [| done].
    by injection Hx as <-.
  - intros Hoff. clear Hdurations.
    induction entries as [|item entries IH]; [done |]. csimpl.
    unfold playlistVideo at 1. rewrite Hclass, Hoff.
    destruct (videoInRange _ _ _); simpl; exact IH.
Qed.

Lemma fetchPlaylistVideos_without_durations_witness :
  Forall (fun x => item_type x = longForm)
    (contribution (fetchPlaylistVideos degradedUpstream channelBAll sampleSettings
                     (cutoffDate sampleSettings sampleToday) (Some "UUbeta") noEffects).1).
Proof.
  apply (fetchPlaylistVideos_without_durations degradedUpstream channelBAll sampleSettings
           (cutoffDate sampleSettings sampleToday) (Some "UUbeta") noEffects
           (fetchPlaylistVideos degradedUpstream channelBAll sampleSettings
              (cutoffDate sampleSettings sampleToday) (Some "UUbeta") noEffects).2).
  - intros n ids. reflexivity.
  - vm_compute. reflexivity.
Defined.
